(** * AI Interviewer extension: recording session, conversation history,
    WAV container and base64 transport.

    Shallow embedding of the content scripts (leetcode-handler.js,
    ui-controller part_005, interviewer.js, utils part_006) and of the
    background scripts (ai-service / background in part_007, utilities.js). *)

From Stdlib Require Import String Ascii List Bool ZArith Lia.
From Stdlib Require Import Strings.Byte.
Import ListNotations.
Open Scope string_scope.
Open Scope list_scope.

(* ------------------------------------------------------------------ *)
(** ** A state and exception monad for async JavaScript functions.

    A JavaScript [async] function that may [throw] is modelled as a state
    transformer that returns either a value or the message of the thrown
    [Error]; the awaited external results are passed in as arguments. *)

Inductive result (A : Type) : Type :=
| Ok (a : A)
| Err (msg : string).
Arguments Ok {A} a.
Arguments Err {A} msg.

Definition M (S A : Type) : Type := S -> result A * S.

Definition ret {S A} (a : A) : M S A := fun s => (Ok a, s).
Definition bind {S A B} (m : M S A) (k : A -> M S B) : M S B :=
  fun s => match m s with
           | (Ok a, s') => k a s'
           | (Err e, s') => (Err e, s')
           end.
Definition throw {S A} (msg : string) : M S A := fun s => (Err msg, s).
Definition get {S} : M S S := fun s => (Ok s, s).
Definition modify {S} (f : S -> S) : M S unit := fun s => (Ok tt, f s).

(** [try { m } catch (e) { h(e) }] *)
Definition try_catch {S A} (m : M S A) (h : string -> M S A) : M S A :=
  fun s => match m s with
           | (Ok a, s') => (Ok a, s')
           | (Err e, s') => h e s'
           end.

(** [try { m } finally { f }] where [f] does not throw. *)
Definition try_finally {S A} (m : M S A) (f : M S unit) : M S A :=
  fun s => match m s with
           | (r, s') => match f s' with
                        | (Ok _, s'') => (r, s'')
                        | (Err e, s'') => (Err e, s'')
                        end
           end.

Notation "x <- m ;; k" := (bind m (fun x => k))
  (at level 61, m at next level, right associativity).
Notation "m ;;; k" := (bind m (fun _ => k))
  (at level 61, right associativity).

(* ------------------------------------------------------------------ *)
(** ** JavaScript string helpers. *)

(** Characters removed by [String.prototype.trim] (the ASCII white space
    and line terminators, plus U+00A0). *)
Definition is_js_space (c : ascii) : bool :=
  let n := nat_of_ascii c in
  (Nat.leb 9 n && Nat.leb n 13) || Nat.eqb n 32 || Nat.eqb n 160.

Fixpoint trim_start (s : string) : string :=
  match s with
  | EmptyString => EmptyString
  | String c r => if is_js_space c then trim_start r else s
  end.

Definition trim_end (s : string) : string :=
  string_of_list_ascii (rev (list_ascii_of_string
    (trim_start (string_of_list_ascii (rev (list_ascii_of_string s)))))).

(** [s.trim()] *)
Definition trim (s : string) : string := trim_end (trim_start s).

(** [s.includes(p)] *)
Fixpoint includes (s p : string) : bool :=
  match s with
  | EmptyString => String.eqb p EmptyString
  | String _ r => String.prefix p s || includes r p
  end.

(** JavaScript truthiness of a string: only [""] is falsy. *)
Definition truthy_str (s : string) : bool :=
  negb (String.eqb s EmptyString).

(* ------------------------------------------------------------------ *)
(** ** Background: conversation history (part_007, ai-service.js). *)

Module Chat.

(** A transcript entry [{ role, text }]. *)
Record Entry : Type := mkEntry { role : string; text : string }.

(** The keys of [chrome.storage.local] this code reads and writes;
    [None] is [undefined].  Storage calls are taken to succeed. *)
Record Storage : Type := mkStorage {
  conversationHistory : option (list Entry);
  apiKey : option string
}.

Definition set_history (h : list Entry) (s : Storage) : Storage :=
  mkStorage (Some h) (apiKey s).

(** [response.candidates[0].content.parts[i]] *)
Record Part : Type := mkPart { part_text : option string }.

(** [candidate.content]: [None] when [content] is missing, [Some None]
    when [content.parts] is missing. *)
Record Candidate : Type := mkCandidate {
  content : option (option (list Part))
}.

(** Outcome of [genai.models.generateContent(...)]: a rejection with its
    message, or a response whose [candidates] field may be missing. *)
Inductive GenOutcome : Type :=
| ApiError (msg : string)
| ApiResponse (candidates : option (list Candidate)).

(** [enhanceApiError(error, operation)] (utilities.js), on the error's
    [name] and [message]. *)
Definition enhanceApiError (name msg operation : string) : string :=
  if includes msg "API key" then "Invalid API key or authentication failed"
  else if includes msg "quota" then "API quota exceeded. Please try again later"
  else if includes msg "network" || String.eqb name "NetworkError" then
    "Network error. Please check your connection and try again"
  else if includes msg "audio" && String.eqb operation "Speech-to-text" then
    "Invalid or corrupted audio data"
  else operation ++ " failed: " ++ msg.

(** The [name] of the errors that reach [enhanceApiError]: the errors are
    carried by their message only, and none of them is a [NetworkError]:
    the SDK rejects with its own error classes, a failed [fetch] with a
    [TypeError], and the code's own [throw new Error(...)] gives "Error".  So the name test of [enhanceApiError] never fires. *)
Definition caught_name : string := "Error".

(** [(await getFromStorage("conversationHistory")) || []] *)
Definition stored_history (s : Storage) : list Entry :=
  match conversationHistory s with
  | Some h => h
  | None => []
  end.

(** The body of the [try] block, after the user turn was pushed on
    [history]. *)
Definition chat_try (history : list Entry) (g : GenOutcome)
  : M Storage string :=
  match g with
  | ApiError msg => throw msg
  | ApiResponse None => throw "API did not return any candidates"
  | ApiResponse (Some []) => throw "API did not return any candidates"
  | ApiResponse (Some (candidate :: _)) =>
      match content candidate with
      | None | Some None | Some (Some []) =>
          modify (set_history (history ++ [mkEntry "model" ""])) ;;;
          ret ""
      | Some (Some (part :: _)) =>
          match part_text part with
          | None => throw "AI response is empty"
          | Some aiText =>
              if String.eqb (trim aiText) "" then throw "AI response is empty"
              else
                modify (set_history (history ++ [mkEntry "model" (trim aiText)])) ;;;
                ret (trim aiText)
          end
      end
  end.

(** [sendPromptAndHandleHistory(prompt)] *)
Definition sendPromptAndHandleHistory (prompt : string) (g : GenOutcome)
  : M Storage string :=
  if negb (truthy_str prompt) then throw "Prompt must be a non-empty string"
  else
    s <- get ;;
    let history := stored_history s ++ [mkEntry "user" prompt] in
    try_catch (chat_try history g)
              (fun e => throw (enhanceApiError caught_name e "AI response")).

End Chat.

(* ------------------------------------------------------------------ *)
(** ** Bytes, DataView and the WAV container (utilities.js, part_006). *)

Module Wav.
Local Open Scope Z_scope.

(** A byte of an [ArrayBuffer] as a Z in [0, 256). *)
Definition byte_val (b : byte) : Z := Z.of_N (Byte.to_N b).

(** [ToUint8]: the byte stored by [setUint8] / a [Uint8Array] element. *)
Definition uint8 (z : Z) : byte :=
  match Byte.of_N (Z.to_N (z mod 256)) with
  | Some b => b
  | None => x00
  end.

(** [list[i] = v], raising when [i] is out of range, as [DataView]'s
    setters raise a [RangeError]. *)
Fixpoint replace_nth {A} (l : list A) (i : nat) (v : A) : option (list A) :=
  match l, i with
  | [], _ => None
  | _ :: r, O => Some (v :: r)
  | x :: r, S i' => option_map (cons x) (replace_nth r i' v)
  end.

(** A [DataView] over an [ArrayBuffer]: a state of bytes. *)
Definition View := M (list byte).

Definition setUint8 (off : nat) (v : Z) : View unit :=
  fun buf => match replace_nth buf off (uint8 v) with
             | Some buf' => (Ok tt, buf')
             | None => (Err "RangeError: Offset is outside the bounds of the DataView", buf)
             end.

(** [view.setUint16(off, v, true)] / [view.setUint32(off, v, true)]:
    the value is reduced modulo 2^16 / 2^32 ([ToUint16] / [ToUint32]) and
    stored little-endian. *)
Definition setUint16_le (off : nat) (v : Z) : View unit :=
  let w := v mod 2 ^ 16 in
  setUint8 off w ;;; setUint8 (S off) (Z.shiftr w 8).

Definition setUint32_le (off : nat) (v : Z) : View unit :=
  let w := v mod 2 ^ 32 in
  setUint8 off w ;;; setUint8 (S off) (Z.shiftr w 8) ;;;
  setUint8 (S (S off)) (Z.shiftr w 16) ;;; setUint8 (S (S (S off))) (Z.shiftr w 24).

(** [writeString(view, offset, text)] *)
Fixpoint writeString (off : nat) (t : string) : View unit :=
  match t with
  | EmptyString => ret tt
  | String c r => setUint8 off (Z.of_nat (nat_of_ascii c)) ;;; writeString (S off) r
  end.

(** [new ArrayBuffer(44)] *)
Definition zero_buffer (n : nat) : list byte := repeat x00 n.

(** The header writes shared by [createWAVheader] and
    [createAndPlayWAVBuffer]. *)
Definition write_header (sampleRate numChannels bitsPerSample dataLength : Z)
  : View unit :=
  let blockAlign := (numChannels * bitsPerSample) / 8 in
  let byteRate := sampleRate * blockAlign in
  writeString 0 "RIFF" ;;;
  setUint32_le 4 (36 + dataLength) ;;;
  writeString 8 "WAVE" ;;;
  writeString 12 "fmt " ;;;
  setUint32_le 16 16 ;;;
  setUint16_le 20 1 ;;;
  setUint16_le 22 numChannels ;;;
  setUint32_le 24 sampleRate ;;;
  setUint32_le 28 byteRate ;;;
  setUint16_le 32 blockAlign ;;;
  setUint16_le 34 bitsPerSample ;;;
  writeString 36 "data" ;;;
  setUint32_le 40 dataLength.

(** [createWAVheader(sampleRate, numChannels, bitsPerSample, dataLength)]
    on integer arguments. *)
Definition createWAVheader (sampleRate numChannels bitsPerSample dataLength : Z)
  : result (list byte) :=
  if (sampleRate <=? 0)%Z then Err "Sample rate must be a positive number"
  else if (numChannels <? 1)%Z || (2 <? numChannels)%Z then
    Err "Number of channels must be 1 (mono) or 2 (stereo)"
  else if negb (Z.eqb bitsPerSample 16) && negb (Z.eqb bitsPerSample 8) then
    Err "Bits per sample must be 8 or 16"
  else if (dataLength <? 0)%Z then Err "Data length must be non-negative"
  else fst (bind (write_header sampleRate numChannels bitsPerSample dataLength)
                 (fun _ => get) (zero_buffer 44)).

(** [createWAVBlob(pcmData, sampleRate, numChannels, bitsPerSample)]:
    the bytes of the returned Blob. *)
Definition createWAVBlob (pcmData : list byte)
  (sampleRate numChannels bitsPerSample : Z) : result (list byte) :=
  match pcmData with
  | [] => Err "PCM data cannot be empty"
  | _ =>
      match createWAVheader sampleRate numChannels bitsPerSample
              (Z.of_nat (length pcmData)) with
      | Err e => Err ("Failed to create WAV blob: " ++ e)
      | Ok wavHeader => Ok (wavHeader ++ pcmData)
      end
  end.

(** The Blob built by [createAndPlayWAVBuffer(pcmData, ...)] (part_006),
    with its fixed 24 kHz, mono, 16-bit format. *)
Definition createAndPlayWAVBuffer_blob (pcmData : list byte) : list byte :=
  let header := snd (write_header 24000 1 16 (Z.of_nat (length pcmData))
                                  (zero_buffer 44)) in
  header ++ pcmData.

(** [view.getUint32(off, true)] on the bytes of a Blob. *)
Definition getUint32_le (bs : list byte) (off : nat) : Z :=
  byte_val (nth off bs x00)
  + 256 * byte_val (nth (off + 1) bs x00)
  + 65536 * byte_val (nth (off + 2) bs x00)
  + 16777216 * byte_val (nth (off + 3) bs x00).

(** [view.getUint16(off, true)] *)
Definition getUint16_le (bs : list byte) (off : nat) : Z :=
  byte_val (nth off bs x00) + 256 * byte_val (nth (off + 1) bs x00).

End Wav.

(* ------------------------------------------------------------------ *)
(** ** Base64 transport (utilities.js: [blobToBase64], [base64ToBufferArray]).

    [FileReader.readAsDataURL] and [atob] belong to the browser; they are
    written out here after the File API (a [data:] URL with the Blob's type
    and the RFC 4648 base64 text) and the WHATWG forgiving-base64 decoder. *)

Module Base64.
Import Wav.
Local Open Scope Z_scope.

(** The base64 alphabet [A-Za-z0-9+/]. *)
Definition enc_char (i : Z) : ascii :=
  if i <? 26 then ascii_of_nat (Z.to_nat (65 + i))
  else if i <? 52 then ascii_of_nat (Z.to_nat (97 + (i - 26)))
  else if i <? 62 then ascii_of_nat (Z.to_nat (48 + (i - 52)))
  else if i =? 62 then "+"%char else "/"%char.

Definition dec_char (c : ascii) : option Z :=
  let n := Z.of_nat (nat_of_ascii c) in
  if (65 <=? n) && (n <=? 90) then Some (n - 65)
  else if (97 <=? n) && (n <=? 122) then Some (n - 97 + 26)
  else if (48 <=? n) && (n <=? 57) then Some (n - 48 + 52)
  else if n =? 43 then Some 62
  else if n =? 47 then Some 63
  else None.

(** The base64 text of a byte sequence, three bytes to four characters,
    with [=] padding. *)
Fixpoint encode (bs : list byte) : list ascii :=
  match bs with
  | b0 :: b1 :: b2 :: r =>
      let n := byte_val b0 * 65536 + byte_val b1 * 256 + byte_val b2 in
      enc_char (n / 262144) :: enc_char ((n / 4096) mod 64)
        :: enc_char ((n / 64) mod 64) :: enc_char (n mod 64) :: encode r
  | [b0; b1] =>
      let n := byte_val b0 * 65536 + byte_val b1 * 256 in
      [enc_char (n / 262144); enc_char ((n / 4096) mod 64);
       enc_char ((n / 64) mod 64); "="%char]
  | [b0] =>
      let n := byte_val b0 * 65536 in
      [enc_char (n / 262144); enc_char ((n / 4096) mod 64); "="%char; "="%char]
  | [] => []
  end.

(** A Blob: its bytes and its [type]. *)
Record Blob : Type := mkBlob { blob_bytes : list byte; blob_type : string }.

(** [reader.readAsDataURL(blob)]; [reader.result], as Chromium builds
    it: just [data:] for an empty Blob. *)
Definition readAsDataURL (b : Blob) : string :=
  match blob_bytes b with
  | [] => "data:"
  | bs =>
      "data:" ++ (if String.eqb (blob_type b) "" then "application/octet-stream"
                  else blob_type b)
      ++ ";base64," ++ string_of_list_ascii (encode bs)
  end.

(** [s.split(",")] *)
Fixpoint split_comma_aux (cur : list ascii) (l : list ascii) : list string :=
  match l with
  | [] => [string_of_list_ascii (rev cur)]
  | c :: r =>
      if Ascii.eqb c ","%char
      then string_of_list_ascii (rev cur) :: split_comma_aux [] r
      else split_comma_aux (c :: cur) r
  end.

Definition split_comma (s : string) : list string :=
  split_comma_aux [] (list_ascii_of_string s).

(** [blobToBase64(blob)] (utilities.js): the resolved string, or the
    rejection message. *)
Definition blobToBase64 (b : Blob) : result string :=
  match nth_error (split_comma (readAsDataURL b)) 1 with
  | Some base64data =>
      if truthy_str base64data then Ok base64data
      else Err "Failed to extract base64 data from blob"
  | None => Err "Failed to extract base64 data from blob"
  end.

(** Forgiving-base64 decode, step by step. *)
Definition is_ascii_whitespace (c : ascii) : bool :=
  let n := nat_of_ascii c in
  Nat.eqb n 9 || Nat.eqb n 10 || Nat.eqb n 12 || Nat.eqb n 13 || Nat.eqb n 32.

(** Remove one or two trailing [=]. *)
Definition strip_padding (l : list ascii) : list ascii :=
  match rev l with
  | c1 :: c2 :: r =>
      if Ascii.eqb c1 "="%char then
        if Ascii.eqb c2 "="%char then rev r else rev (c2 :: r)
      else l
  | [c1] => if Ascii.eqb c1 "="%char then [] else l
  | [] => l
  end.

Fixpoint dec_all (l : list ascii) : option (list Z) :=
  match l with
  | [] => Some []
  | c :: r =>
      match dec_char c, dec_all r with
      | Some v, Some vs => Some (v :: vs)
      | _, _ => None
      end
  end.

(** The bytes produced from the 6-bit values: 24 bits give three bytes,
    a final 18 bits two bytes, a final 12 bits one byte. *)
Fixpoint bytes_of_sextets (vs : list Z) : list Z :=
  match vs with
  | a :: b :: c :: d :: r =>
      let n := a * 262144 + b * 4096 + c * 64 + d in
      n / 65536 :: (n / 256) mod 256 :: n mod 256 :: bytes_of_sextets r
  | [a; b; c] =>
      let n := (a * 4096 + b * 64 + c) / 4 in
      [n / 256; n mod 256]
  | [a; b] =>
      let n := (a * 64 + b) / 16 in
      [n]
  | _ => []
  end.

(** [atob(data)]: the code units of the binary string, or the
    [InvalidCharacterError]. *)
Definition atob (data : string) : result (list Z) :=
  let l0 := filter (fun c => negb (is_ascii_whitespace c)) (list_ascii_of_string data) in
  let l1 := if Nat.eqb (Nat.modulo (length l0) 4) 0 then strip_padding l0 else l0 in
  if Nat.eqb (Nat.modulo (length l1) 4) 1 then
    Err "InvalidCharacterError: The string to be decoded is not correctly encoded."
  else match dec_all l1 with
       | Some vs => Ok (bytes_of_sextets vs)
       | None => Err "InvalidCharacterError: The string to be decoded is not correctly encoded."
       end.

(** [base64ToBufferArray(base64)] (utilities.js): the bytes of the
    returned [ArrayBuffer]. *)
Definition base64ToBufferArray (base64 : string) : result (list byte) :=
  if negb (truthy_str base64) then Err "Base64 parameter must be a non-empty string"
  else match atob base64 with
       | Ok binaryString => Ok (map uint8 binaryString)
       | Err e => Err ("Failed to decode base64 data: " ++ e)
       end.

(** The 6-bit values [encode] writes, and its padding. *)
Fixpoint sextets (bs : list byte) : list Z :=
  match bs with
  | b0 :: b1 :: b2 :: r =>
      let n := byte_val b0 * 65536 + byte_val b1 * 256 + byte_val b2 in
      n / 262144 :: (n / 4096) mod 64 :: (n / 64) mod 64 :: n mod 64 :: sextets r
  | [b0; b1] =>
      let n := byte_val b0 * 65536 + byte_val b1 * 256 in
      [n / 262144; (n / 4096) mod 64; (n / 64) mod 64]
  | [b0] =>
      let n := byte_val b0 * 65536 in
      [n / 262144; (n / 4096) mod 64]
  | [] => []
  end.

Fixpoint padding (bs : list byte) : list ascii :=
  match bs with
  | _ :: _ :: _ :: r => padding r
  | [_; _] => ["="%char]
  | [_] => ["="%char; "="%char]
  | [] => []
  end.

End Base64.

(* ------------------------------------------------------------------ *)
(** ** Content script: the recording session (leetcode-handler.js,
    ui-controller part_005, interviewer.js, part_006).

    The module-level variables [currentState], [recordingButton],
    [mediaRecorder] and [audioChunks] form the session state, together
    with what the code does to the page and the browser: the microphone
    streams it holds, the errors it shows, the messages it sends to the
    background script and the WAV playback it starts.  Every event handler
    runs to completion as one step: while a handler awaits, the state is
    [RECORDING] (only during [getUserMedia], with no recorder to stop),
    [PROCESSING] or [AI_SPEAKING], where a click does nothing. *)

Module Session.

Inductive RecordingState : Type :=
| READY | RECORDING | PROCESSING | AI_SPEAKING.

Definition RecordingState_eqb (a b : RecordingState) : bool :=
  match a, b with
  | READY, READY | RECORDING, RECORDING | PROCESSING, PROCESSING
  | AI_SPEAKING, AI_SPEAKING => true
  | _, _ => false
  end.

(** [mediaRecorder.state] *)
Inductive RecorderState : Type := MR_inactive | MR_recording.

(** A [navigator.mediaDevices.getUserMedia] call, with the session state
    at the time: the permission probe or the capture of [startRecording]. *)
Inductive MediaRequest : Type :=
| Probe (st : RecordingState)
| Capture (st : RecordingState).

Record Session : Type := mkSession {
  currentState : RecordingState;
  buttonPresent : bool;            (* recordingButton !== null *)
  buttonDisabled : bool;           (* recordingButton.disabled *)
  audioChunks : list nat;          (* sizes of the buffered chunks *)
  mediaRecorder : option RecorderState;
  stopPending : bool;              (* mediaRecorder.stop() called, onstop not yet run *)
  liveStreams : nat;               (* capture streams whose tracks are not stopped *)
  playing : option (list byte);    (* the WAV Blob the Audio element is playing *)
  interviewActive : bool;          (* storage key isInterviewActive *)
  mediaRequests : list MediaRequest;  (* latest first *)
  errorsShown : list string;       (* showError messages, latest first *)
  messagesSent : list string;      (* sendMessage actions, latest first *)
  stateLog : list RecordingState   (* values assigned to currentState, latest first *)
}.

Definition SM := M Session.

Definition set_state (st : RecordingState) : SM unit := modify (fun s =>
  mkSession st (buttonPresent s) (buttonDisabled s) (audioChunks s)
    (mediaRecorder s) (stopPending s) (liveStreams s) (playing s)
    (interviewActive s) (mediaRequests s) (errorsShown s) (messagesSent s)
    (st :: stateLog s)).

Definition set_button (present disabled : bool) : SM unit := modify (fun s =>
  mkSession (currentState s) present disabled (audioChunks s)
    (mediaRecorder s) (stopPending s) (liveStreams s) (playing s)
    (interviewActive s) (mediaRequests s) (errorsShown s) (messagesSent s)
    (stateLog s)).

Definition set_chunks (c : list nat) : SM unit := modify (fun s =>
  mkSession (currentState s) (buttonPresent s) (buttonDisabled s) c
    (mediaRecorder s) (stopPending s) (liveStreams s) (playing s)
    (interviewActive s) (mediaRequests s) (errorsShown s) (messagesSent s)
    (stateLog s)).

Definition set_recorder (r : option RecorderState) (pending : bool) : SM unit :=
  modify (fun s =>
  mkSession (currentState s) (buttonPresent s) (buttonDisabled s)
    (audioChunks s) r pending (liveStreams s) (playing s)
    (interviewActive s) (mediaRequests s) (errorsShown s) (messagesSent s)
    (stateLog s)).

Definition set_streams (n : nat) : SM unit := modify (fun s =>
  mkSession (currentState s) (buttonPresent s) (buttonDisabled s)
    (audioChunks s) (mediaRecorder s) (stopPending s) n (playing s)
    (interviewActive s) (mediaRequests s) (errorsShown s) (messagesSent s)
    (stateLog s)).

Definition set_playing (p : option (list byte)) : SM unit := modify (fun s =>
  mkSession (currentState s) (buttonPresent s) (buttonDisabled s)
    (audioChunks s) (mediaRecorder s) (stopPending s) (liveStreams s) p
    (interviewActive s) (mediaRequests s) (errorsShown s) (messagesSent s)
    (stateLog s)).

Definition set_interviewActive (b : bool) : SM unit := modify (fun s =>
  mkSession (currentState s) (buttonPresent s) (buttonDisabled s)
    (audioChunks s) (mediaRecorder s) (stopPending s) (liveStreams s)
    (playing s) b (mediaRequests s) (errorsShown s) (messagesSent s)
    (stateLog s)).

Definition getUserMedia_call (req : RecordingState -> MediaRequest) : SM unit :=
  modify (fun s =>
  mkSession (currentState s) (buttonPresent s) (buttonDisabled s)
    (audioChunks s) (mediaRecorder s) (stopPending s) (liveStreams s)
    (playing s) (interviewActive s) (req (currentState s) :: mediaRequests s)
    (errorsShown s) (messagesSent s) (stateLog s)).

(** [showError(message)] *)
Definition showError (msg : string) : SM unit := modify (fun s =>
  mkSession (currentState s) (buttonPresent s) (buttonDisabled s)
    (audioChunks s) (mediaRecorder s) (stopPending s) (liveStreams s)
    (playing s) (interviewActive s) (mediaRequests s) (msg :: errorsShown s)
    (messagesSent s) (stateLog s)).

(** [chrome.runtime.sendMessage({ action, ... })], the request part. *)
Definition sendMessage (action : string) : SM unit := modify (fun s =>
  mkSession (currentState s) (buttonPresent s) (buttonDisabled s)
    (audioChunks s) (mediaRecorder s) (stopPending s) (liveStreams s)
    (playing s) (interviewActive s) (mediaRequests s) (errorsShown s)
    (action :: messagesSent s) (stateLog s)).

(** [recordingButton.disabled] as [updateButtonState] sets it. *)
Definition disabled_for (st : RecordingState) : bool :=
  match st with
  | READY | RECORDING => false
  | PROCESSING | AI_SPEAKING => true
  end.

(** [updateButtonState(state)] (part_005). *)
Definition updateButtonState (st : RecordingState) : SM unit :=
  s <- get ;;
  if buttonPresent s then set_state st ;;; set_button true (disabled_for st)
  else ret tt.

(** [resetToReadyState()] (leetcode-handler.js). *)
Definition resetToReadyState : SM unit :=
  updateButtonState READY ;;;
  set_state READY ;;;
  set_chunks [] ;;;
  s <- get ;;
  match mediaRecorder s with
  | None => ret tt
  | Some MR_inactive => set_recorder None (stopPending s)
  | Some MR_recording =>
      (* mediaRecorder.stop(): onstop will run later *)
      set_recorder None true
  end.

(** How [startRecording]'s calls to the browser turn out. *)
Inductive StartOutcome : Type :=
| DeviceDenied            (* getUserMedia rejects *)
| RecorderCtorFails       (* new MediaRecorder(...) throws *)
| RecorderStartFails      (* mediaRecorder.start(1000) throws *)
| RecorderStarted.

(** [startRecording()] (leetcode-handler.js). *)
Definition startRecording (o : StartOutcome) : SM unit :=
  updateButtonState RECORDING ;;;
  set_state RECORDING ;;;
  try_catch
    (getUserMedia_call Capture ;;;
     match o with
     | DeviceDenied => throw "Permission denied"
     | _ =>
         s <- get ;; set_streams (S (liveStreams s)) ;;;
         match o with
         | RecorderCtorFails => throw "Failed to execute 'MediaRecorder' constructor"
         | _ =>
             s <- get ;; set_recorder (Some MR_inactive) (stopPending s) ;;;
             set_chunks [] ;;;
             match o with
             | RecorderStartFails => throw "Failed to execute 'start' on 'MediaRecorder'"
             | _ => s <- get ;; set_recorder (Some MR_recording) (stopPending s)
             end
         end
     end)
    (fun e => showError ("Failed to start recording: " ++ e) ;;; resetToReadyState).

(** [stopRecording()] (leetcode-handler.js). *)
Definition stopRecording : SM unit :=
  s <- get ;;
  match mediaRecorder s with
  | Some MR_recording =>
      updateButtonState PROCESSING ;;;
      set_state PROCESSING ;;;
      set_recorder (Some MR_inactive) true
  | _ => ret tt  (* console.warn("No active recording to stop") *)
  end.

(** [handleRecordingClick()] (part_005). *)
Definition handleRecordingClick (o : StartOutcome) : SM unit :=
  s <- get ;;
  match currentState s with
  | PROCESSING | AI_SPEAKING => ret tt
  | READY => startRecording o
  | RECORDING => stopRecording
  end.

(** A response of the background script: [{ success: true, text }] /
    [{ success: true, audioData }], or [{ success: false, error }]. *)
Inductive Response : Type :=
| RespOk (payload : string)
| RespErr (error : string).

(** The responses awaited while a recording is processed. *)
Record PipelineEnv : Type := mkEnv {
  sttResponse : Response;    (* speechToText *)
  chatResponse : Response;   (* sendChatMessage *)
  ttsResponse : Response     (* textToSpeech *)
}.

(** [createAndPlayWAVBuffer(pcmData, onError, onEnded)] (part_006): the
    Blob is built and [audio.play()] started; its end or rejection comes
    later as an event. *)
Definition createAndPlayWAVBuffer (pcmData : list byte) : SM unit :=
  set_playing (Some (Wav.createAndPlayWAVBuffer_blob pcmData)).

(** [playAIResponse(aiText)] (interviewer.js). *)
Definition playAIResponse (aiText : string) (tts : Response) : SM unit :=
  try_catch
    (updateButtonState AI_SPEAKING ;;;
     set_state AI_SPEAKING ;;;
     sendMessage "textToSpeech" ;;;
     match tts with
     | RespErr e => throw e
     | RespOk audioData =>
         if negb (truthy_str audioData) then
           throw "Invalid response from text-to-speech service, audioData missing"
         else match Base64.atob audioData with
              | Err e => throw e
              | Ok codes => createAndPlayWAVBuffer (map Wav.uint8 codes)
              end
     end)
    (fun e => showError ("Failed to play AI response: " ++ e)).

(** [handleAIResponse(aiText)] (interviewer.js); [showTranscribedText]
    only draws on the page. *)
Definition handleAIResponse (aiText : string) (tts : Response) : SM unit :=
  try_catch (playAIResponse aiText tts)
            (fun e => showError ("Failed to process AI response: " ++ e)).

(** [handleUserInteraction(userText)] (interviewer.js). *)
Definition handleUserInteraction (userText : string) (env : PipelineEnv)
  : SM unit :=
  try_catch
    (sendMessage "sendChatMessage" ;;;
     match chatResponse env with
     | RespErr e => throw e
     | RespOk t => handleAIResponse (trim t) (ttsResponse env)
     end)
    (fun e => throw ("Failed to get AI response: " ++ e)).

(** [new Blob(audioChunks).size] *)
Definition blob_size (chunks : list nat) : nat := fold_right plus 0 chunks.

(** [processRecordedAudio()] (leetcode-handler.js). *)
Definition processRecordedAudio (env : PipelineEnv) : SM unit :=
  try_finally
    (try_catch
       (s <- get ;;
        match audioChunks s with
        | [] => throw "No audio data recorded"
        | chunks =>
            if Nat.eqb (blob_size chunks) 0 then throw "Recorded audio is empty"
            else
              sendMessage "speechToText" ;;;
              match sttResponse env with
              | RespErr e => throw e
              | RespOk t => handleUserInteraction (trim t) env
              end
        end)
       (fun e => showError ("Failed to process recording: " ++ e)))
    resetToReadyState.

(** [mediaRecorder.onstop]: stop the stream's tracks, then process. *)
Definition onstop (env : PipelineEnv) : SM unit :=
  s <- get ;;
  if stopPending s then
    set_recorder (mediaRecorder s) false ;;;
    set_streams (pred (liveStreams s)) ;;;
    processRecordedAudio env
  else ret tt.

(** [mediaRecorder.ondataavailable]: the handler is attached to the
    recorder object, and the browser delivers the last chunk after
    [stop()], so it runs whatever the session state and pushes to the
    current [audioChunks]. *)
Definition ondataavailable (size : nat) : SM unit :=
  s <- get ;;
  if Nat.ltb 0 size then set_chunks (audioChunks s ++ [size]) else ret tt.

(** [mediaRecorder.onerror]: attached to the recorder object, so it also
    runs once the global [mediaRecorder] has been set to [null]. *)
Definition onerror (msg : string) : SM unit :=
  showError ("Recording error: " ++ msg) ;;; resetToReadyState.

(** The [ended] listener: [onEndedCallback && onEndedCallback();
    onEndedCallback();] with [onEndedCallback = resetToReadyState]. *)
Definition onended : SM unit :=
  s <- get ;;
  match playing s with
  | Some _ => set_playing None ;;; resetToReadyState ;;; resetToReadyState
  | None => ret tt
  end.

(** [audio.play()] rejected: the error callback of [playAIResponse]. *)
Definition onplayerror (msg : string) : SM unit :=
  s <- get ;;
  match playing s with
  | Some _ =>
      set_playing None ;;;
      showError ("Error playing AI response audio: " ++ msg) ;;;
      resetToReadyState
  | None => ret tt
  end.

(** The events of the recording pipeline. *)
Inductive Event : Type :=
| Click (o : StartOutcome)
| DataAvailable (size : nat)
| RecorderStopped (env : PipelineEnv)
| RecorderError (msg : string)
| PlaybackEnded
| PlaybackRejected (msg : string).

Definition handler (e : Event) : SM unit :=
  match e with
  | Click o => handleRecordingClick o
  | DataAvailable n => ondataavailable n
  | RecorderStopped env => onstop env
  | RecorderError msg => onerror msg
  | PlaybackEnded => onended
  | PlaybackRejected msg => onplayerror msg
  end.

Definition step (s : Session) (e : Event) : Session := snd (handler e s).

Definition run (evs : list Event) (s : Session) : Session := fold_left step evs s.

(** [requestMicrophonePermission()] (leetcode-handler.js), on whether
    the user grants the microphone. *)
Definition requestMicrophonePermission (granted : bool) : SM bool :=
  try_catch
    (getUserMedia_call Probe ;;;
     if granted then ret true  (* the probe stream's tracks are stopped at once *)
     else throw "Permission denied")
    (fun _ =>
       showError "Microphone access is required for voice recording. Please allow microphone access and try again." ;;;
       throw "Microphone permission required").

(** [createRecordingButton()] (part_005). *)
Definition createRecordingButton : SM unit :=
  set_button false false ;;;
  set_button true false ;;;
  updateButtonState READY.

(** [firstInterviewPrompt()] (interviewer.js). *)
Definition firstInterviewPrompt (resp : Response) : SM unit :=
  try_catch
    (sendMessage "sendChatMessage" ;;;
     match resp with
     | RespOk _ => ret tt
     | RespErr _ => throw ""  (* new Error(response.message): no such field *)
     end)
    (fun e => showError ("Failed to send first prompt: " ++ e)).

(** [startInterview(firstTime)] (interviewer.js); clearing the stored
    history touches only the background's storage keys. *)
Definition startInterview (firstTime : bool) (firstResp : Response)
  (granted : bool) : SM unit :=
  try_catch
    (createRecordingButton ;;;
     updateButtonState PROCESSING ;;;
     (if firstTime then firstInterviewPrompt firstResp else ret tt) ;;;
     set_interviewActive true ;;;
     requestMicrophonePermission granted ;;;
     resetToReadyState)
    (fun e => showError ("Failed to start interview: " ++ e) ;;;
              set_interviewActive false).

(** ** Transitions recorded in [stateLog]. *)

(** Entering [RECORDING] only from [READY], entering [PROCESSING] only
    from [RECORDING]; assigning the current value again enters nothing. *)
Definition legal_step (from to : RecordingState) : bool :=
  match to with
  | RECORDING => match from with READY | RECORDING => true | _ => false end
  | PROCESSING => match from with RECORDING | PROCESSING => true | _ => false end
  | READY | AI_SPEAKING => true
  end.

(** Every consecutive pair of the log (latest first) is a legal step. *)
Fixpoint legal_log (l : list RecordingState) : bool :=
  match l with
  | to :: ((from :: _) as r) => legal_step from to && legal_log r
  | _ => true
  end.

(** The log's head is the current state and the log is legal. *)
Definition Inv (s : Session) : Prop :=
  hd_error (stateLog s) = Some (currentState s) /\ legal_log (stateLog s) = true.

Definition Preserves {A} (m : SM A) : Prop :=
  forall s, Inv s -> Inv (snd (m s)).

(** A predicate on sessions that [m] keeps. *)
Definition Keeps (P : Session -> Prop) {A} (m : SM A) : Prop :=
  forall s, P s -> P (snd (m s)).

(** Every chunk in [audioChunks] has a positive size. *)
Definition chunks_positive (s : Session) : Prop :=
  Forall (fun n => 0 < n) (audioChunks s).

(** ** Sample data. *)

(** The session right after [startInterview] succeeded: [READY], button
    enabled, no recorder, no stream. *)
Definition ready_session : Session :=
  mkSession READY true false [] None false 0 None true [] [] [] [READY].

Definition sample_env : PipelineEnv :=
  mkEnv (RespOk "what is two sum") (RespOk "Let's begin") (RespOk "AAAA").

(** The page before [startInterview]: no recording button yet. *)
Definition idle_session : Session :=
  mkSession READY false false [] None false 0 None false [] [] [] [READY].

(** Record, stop, and let the pipeline run up to the start of playback. *)
Definition one_turn : list Event :=
  [Click RecorderStarted; DataAvailable 10; Click RecorderStarted;
   RecorderStopped sample_env].

End Session.

(* ------------------------------------------------------------------ *)
(** ** Background services (part_007, ai-service.js and background.js,
    the later versions; utilities.js: [createAudioElementFromBase64]). *)

Module Background.
Import Chat Wav Base64.

(** [createAudioElementFromBase64(base64, mimeType)]: the returned WAV
    Blob; [mimeType] is not used by the function. *)
Definition createAudioElementFromBase64 (base64 : string) (mimeType : string)
  : result Blob :=
  if negb (truthy_str base64) then Err "Base64 audio data is required"
  else match base64ToBufferArray base64 with
       | Err e => Err ("Failed to create audio from base64: " ++ e)
       | Ok audioData =>
           match createWAVBlob audioData 24000 1 16 with
           | Err e => Err ("Failed to create audio from base64: " ++ e)
           | Ok wav => Ok (mkBlob wav "audio/wav")
           end
       end.

(** The body of the [try] block of [speechToText], on the outcome of
    [generateContent]. *)
Definition speechToText_try (g : GenOutcome) : result string :=
  match g with
  | ApiError msg => Err msg
  | ApiResponse None => Err "API did not return any candidates"
  | ApiResponse (Some []) => Err "API did not return any candidates"
  | ApiResponse (Some (candidate :: _)) =>
      match content candidate with
      | None | Some None | Some (Some []) => Ok ""
      | Some (Some (part :: _)) =>
          match part_text part with
          | None => Err "No text could be extracted from the audio"
          | Some text =>
              if String.eqb (trim text) "" then
                Err "No text could be extracted from the audio"
              else Ok (trim text)
          end
      end
  end.

(** [speechToText(audioBase64, mimeType)] *)
Definition speechToText (audioBase64 : string) (g : GenOutcome) : result string :=
  if negb (truthy_str audioBase64) then
    Err "Audio data parameter must be a non-empty base64 string"
  else match speechToText_try g with
       | Ok t => Ok t
       | Err e => Err (enhanceApiError caught_name e "Speech-to-text")
       end.

(** [part.inlineData]: its [data] field, [None] when missing. *)
Record InlineData : Type := mkInlineData {
  data : option string;
  mimeType : option string
}.

Record AudioPart : Type := mkAudioPart { inlineData : option InlineData }.

(** [candidate.content] of a speech response, as for [Candidate]. *)
Record AudioCandidate : Type := mkAudioCandidate {
  audio_content : option (option (list AudioPart))
}.

Inductive TtsOutcome : Type :=
| TtsError (msg : string)
| TtsResponse (candidates : option (list AudioCandidate)).

(** The body of the [try] block of [textToSpeech]. *)
Definition textToSpeech_try (g : TtsOutcome) : result Blob :=
  match g with
  | TtsError msg => Err msg
  | TtsResponse None => Err "API did not return any candidates"
  | TtsResponse (Some []) => Err "API did not return any candidates"
  | TtsResponse (Some (candidate :: _)) =>
      match audio_content candidate with
      | None | Some None | Some (Some []) => Ok (mkBlob [] "")  (* new Blob() *)
      | Some (Some (part :: _)) =>
          match inlineData part with
          | Some (mkInlineData (Some audioData) mt) =>
              if negb (truthy_str audioData) then Err "API did not return audio data"
              else
                let mimeType := match mt with
                                | Some m => if truthy_str m then m else "audio/wav"
                                | None => "audio/wav"
                                end in
                createAudioElementFromBase64 audioData mimeType
          | _ => Err "API did not return audio data"
          end
      end
  end.

(** [textToSpeech(text)] *)
Definition textToSpeech (text : string) (g : TtsOutcome) : result Blob :=
  if negb (truthy_str text) then Err "Text parameter must be a non-empty string"
  else match textToSpeech_try g with
       | Ok b => Ok b
       | Err e => Err (enhanceApiError caught_name e "Text-to-speech")
       end.

(** The object passed to [sendResponse]: [{ success: true, text, ... }]
    or [{ success: false, error }]. *)
Inductive BgResponse : Type :=
| Success (text : string)
| Failure (error : string).

(** [error.message || fallback] *)
Definition message_or (e fallback : string) : string :=
  if truthy_str e then e else fallback.

(** [handleSpeechToText(request, sendResponse)]: the response sent for
    [request.audioBlob]. *)
Definition handleSpeechToText (audioBlob : string) (g : GenOutcome) : BgResponse :=
  if negb (truthy_str audioBlob) then Failure "Audio blob parameter is required"
  else match speechToText audioBlob g with
       | Err e => Failure (message_or e "Speech to text failed")
       | Ok text =>
           if negb (truthy_str text) then
             Failure (message_or "No text could be extracted from audio"
                        "Speech to text failed")
           else Success text
       end.

End Background.

(* ------------------------------------------------------------------ *)
(** ** Content-script helpers (content/utils.js, leetcode-handler.js). *)

Module Content.
Import Wav Base64.

(** The [type] of [new Blob(parts, { type })] (File API): empty when it
    holds a character outside U+0020..U+007E, otherwise lowercased. *)
Definition ascii_lower (c : ascii) : ascii :=
  let n := nat_of_ascii c in
  if Nat.leb 65 n && Nat.leb n 90 then ascii_of_nat (n + 32) else c.

Definition blob_type_of (t : string) : string :=
  let l := list_ascii_of_string t in
  if forallb (fun c => Nat.leb 32 (nat_of_ascii c) && Nat.leb (nat_of_ascii c) 126) l
  then string_of_list_ascii (map ascii_lower l)
  else "".

(** [base64ToBlob(base64, mimeType)] (content/utils.js). *)
Definition base64ToBlob (base64 mimeType : string) : result Blob :=
  if negb (truthy_str base64) then Err "Base64 data must be a non-empty string"
  else if negb (truthy_str mimeType) then Err "MIME type must be specified"
  else match atob base64 with
       | Err e => Err ("Failed to convert base64 to blob: " ++ e)
       | Ok byteNumbers => Ok (mkBlob (map uint8 byteNumbers) (blob_type_of mimeType))
       end.

(** [s.split(sep)] for a one-character separator. *)
Fixpoint split_aux (sep : ascii) (cur : list ascii) (l : list ascii) : list string :=
  match l with
  | [] => [string_of_list_ascii (rev cur)]
  | c :: r =>
      if Ascii.eqb c sep
      then string_of_list_ascii (rev cur) :: split_aux sep [] r
      else split_aux sep (c :: cur) r
  end.

Definition split (sep : ascii) (s : string) : list string :=
  split_aux sep [] (list_ascii_of_string s).

(** [getLeetcodeProblemTitleAndLink()] on [window.location.href] and
    [document.title]. *)
Definition getLeetcodeProblemTitleAndLink (url title : string) : string :=
  let cleanUrl := trim (nth 0 (split "?"%char url) "") in
  "Title: " ++ title ++ ", Link: " ++ cleanUrl.

End Content.

(* ================================================================== *)
(** * Properties *)

(* ------------------------------------------------------------------ *)
(** ** Conversation history *)

Section ChatHistory.
Import Chat.

Lemma truthy_str_nonempty (p : string) : p <> "" -> truthy_str p = true.
Proof.
  intro H. unfold truthy_str. destruct (String.eqb_spec p "") as [E|E].
  - contradiction.
  - reflexivity.
Qed.

(** The state after [chat_try] is the initial one, or it holds
    [history] followed by one model turn whose text is the value
    returned. *)
Lemma chat_try_cases (history : list Entry) (g : GenOutcome) (s : Storage) :
  (exists e, chat_try history g s = (Err e, s)) \/
  (exists r, chat_try history g s =
             (Ok r, set_history (history ++ [mkEntry "model" r]) s)).
Proof.
  destruct g as [msg | [cands |]]; simpl.
  - left. eexists. reflexivity.
  - destruct cands as [| c rest]; [left; eexists; reflexivity |].
    destruct (content c) as [[[| part ps] |] |]; simpl.
    + right. eexists. reflexivity.
    + destruct (part_text part) as [t |]; [| left; eexists; reflexivity].
      destruct (String.eqb (trim t) ""); [left; eexists; reflexivity |].
      right. eexists. reflexivity.
    + right. eexists. reflexivity.
    + right. eexists. reflexivity.
  - left. eexists. reflexivity.
Qed.

Lemma sendPrompt_cases (p : string) (g : GenOutcome) (s : Storage) :
  p <> "" ->
  (exists e, sendPromptAndHandleHistory p g s = (Err e, s)) \/
  (exists r, sendPromptAndHandleHistory p g s =
    (Ok r, set_history (stored_history s ++ [mkEntry "user" p; mkEntry "model" r]) s)).
Proof.
  intro Hp. unfold sendPromptAndHandleHistory.
  rewrite (truthy_str_nonempty p Hp). simpl.
  unfold bind, get, try_catch.
  destruct (chat_try_cases (stored_history s ++ [mkEntry "user" p]) g s)
    as [[e He] | [r Hr]].
  - rewrite He. left. eexists. reflexivity.
  - rewrite Hr. right. exists r. rewrite <- app_assoc. reflexivity.
Qed.

(** C4: on success with reply [r], the stored history is the prior one
    followed by the user turn and the model turn [r], in that order. *)
Theorem sendPrompt_success_appends (s s' : Storage) (p r : string)
  (g : GenOutcome) :
  p <> "" ->
  sendPromptAndHandleHistory p g s = (Ok r, s') ->
  conversationHistory s' =
    Some (stored_history s ++ [mkEntry "user" p; mkEntry "model" r]).
Proof.
  intros Hp Hrun.
  destruct (sendPrompt_cases p g s Hp) as [[e He] | [r' Hr]].
  - rewrite He in Hrun. discriminate.
  - rewrite Hr in Hrun. injection Hrun as <- <-. reflexivity.
Qed.

Lemma sendPrompt_success_appends_witness :
  let s := mkStorage (Some [mkEntry "user" "A"; mkEntry "model" "B"]) None in
  let g := ApiResponse (Some [mkCandidate (Some (Some [mkPart (Some " Let's begin ")]))]) in
  sendPromptAndHandleHistory "C" g s = (Ok "Let's begin", snd (sendPromptAndHandleHistory "C" g s)) /\
  conversationHistory (snd (sendPromptAndHandleHistory "C" g s)) =
    Some [mkEntry "user" "A"; mkEntry "model" "B"; mkEntry "user" "C";
          mkEntry "model" "Let's begin"].
Proof.
  intros s g. split; [vm_compute; reflexivity |].
  apply (sendPrompt_success_appends s _ "C" "Let's begin" g).
  - discriminate.
  - vm_compute. reflexivity.
Defined.

(** C5: a failing [sendPromptAndHandleHistory] leaves storage unchanged,
    and a rejected API call makes it fail. *)
Theorem sendPrompt_failure_keeps_history (p : string) (s : Storage) :
  (forall g e s',
     sendPromptAndHandleHistory p g s = (Err e, s') -> s' = s) /\
  (forall msg, exists e,
     sendPromptAndHandleHistory p (ApiError msg) s = (Err e, s)).
Proof.
  split.
  - intros g e s' Hrun. destruct (String.eqb_spec p "") as [E | E].
    + subst p. unfold sendPromptAndHandleHistory in Hrun. simpl in Hrun.
      injection Hrun as _ <-. reflexivity.
    + destruct (sendPrompt_cases p g s E) as [[e' He] | [r Hr]].
      * rewrite He in Hrun. injection Hrun as _ <-. reflexivity.
      * rewrite Hr in Hrun. discriminate.
  - intro msg. unfold sendPromptAndHandleHistory.
    destruct (truthy_str p); simpl; eexists; reflexivity.
Qed.

Lemma sendPrompt_failure_keeps_history_witness :
  let s := mkStorage (Some [mkEntry "user" "A"; mkEntry "model" "B"]) None in
  exists e, sendPromptAndHandleHistory "C" (ApiError "quota exceeded") s = (Err e, s).
Proof.
  intro s. apply (proj2 (sendPrompt_failure_keeps_history "C" s)).
Defined.

(** C10: a first candidate without content parts is not an error: both
    turns are stored, the model turn with empty text, and [""] is
    returned. *)
Theorem sendPrompt_no_parts_stores_empty_reply (s : Storage) (p : string)
  (c : Candidate) (rest : list Candidate) :
  p <> "" ->
  content c = None \/ content c = Some None \/ content c = Some (Some []) ->
  sendPromptAndHandleHistory p (ApiResponse (Some (c :: rest))) s =
    (Ok "", mkStorage (Some (stored_history s ++
                              [mkEntry "user" p; mkEntry "model" ""]))
                      (apiKey s)).
Proof.
  intros Hp Hc. unfold sendPromptAndHandleHistory.
  rewrite (truthy_str_nonempty p Hp). simpl.
  unfold bind, get, try_catch, chat_try.
  destruct Hc as [Hc | [Hc | Hc]]; rewrite Hc; simpl;
    unfold set_history; rewrite <- app_assoc; reflexivity.
Qed.

Lemma sendPrompt_no_parts_stores_empty_reply_witness :
  sendPromptAndHandleHistory "C" (ApiResponse (Some [mkCandidate None]))
    (mkStorage None None) =
  (Ok "", mkStorage (Some [mkEntry "user" "C"; mkEntry "model" ""]) None).
Proof.
  apply (sendPrompt_no_parts_stores_empty_reply (mkStorage None None) "C"
           (mkCandidate None) []).
  - discriminate.
  - left. reflexivity.
Defined.

End ChatHistory.

(* ------------------------------------------------------------------ *)
(** ** WAV container *)

Section WavLayout.
Import Wav.
Local Open Scope Z_scope.

Lemma byte_val_uint8 (z : Z) : byte_val (uint8 z) = z mod 256.
Proof.
  unfold uint8, byte_val.
  pose proof (Z.mod_pos_bound z 256 ltac:(lia)) as Hb.
  destruct (Byte.of_N (Z.to_N (z mod 256))) as [b |] eqn:E.
  - apply Byte.to_of_N in E. rewrite E. apply Z2N.id. lia.
  - apply Byte.of_N_None_iff in E. exfalso.
    assert (Z.to_N (z mod 256) <= 255)%N as Hle by lia. lia.
Qed.

Lemma byte_val_bound (b : byte) : 0 <= byte_val b < 256.
Proof.
  unfold byte_val. pose proof (Byte.to_N_bounded b). lia.
Qed.

(** A little-endian 32-bit field reads back as its value modulo 2^32. *)
Lemma le32_roundtrip (v : Z) :
  byte_val (uint8 (v mod 2 ^ 32))
  + 256 * byte_val (uint8 (Z.shiftr (v mod 2 ^ 32) 8))
  + 65536 * byte_val (uint8 (Z.shiftr (v mod 2 ^ 32) 16))
  + 16777216 * byte_val (uint8 (Z.shiftr (v mod 2 ^ 32) 24)) = v mod 2 ^ 32.
Proof.
  rewrite !byte_val_uint8, !Z.shiftr_div_pow2 by lia.
  pose proof (Z.mod_pos_bound v (2 ^ 32) ltac:(lia)).
  change (2 ^ 8) with 256. change (2 ^ 16) with 65536.
  change (2 ^ 24) with 16777216. change (2 ^ 32) with 4294967296 in *.
  set (x := v mod 4294967296) in *.
  replace (x / 65536) with (x / 256 / 256)
    by (rewrite Z.div_div by lia; reflexivity).
  replace (x / 16777216) with (x / 256 / 256 / 256)
    by (rewrite !Z.div_div by lia; reflexivity).
  set (y1 := x / 256). set (y2 := y1 / 256). set (y3 := y2 / 256).
  assert (x = 256 * y1 + x mod 256) by (apply Z.div_mod; lia).
  assert (y1 = 256 * y2 + y1 mod 256) by (apply Z.div_mod; lia).
  assert (y2 = 256 * y3 + y2 mod 256) by (apply Z.div_mod; lia).
  assert (0 <= y3 < 256).
  { unfold y3, y2, y1. rewrite !Z.div_div by lia.
    split; [apply Z.div_pos; lia | apply Z.div_lt_upper_bound; lia]. }
  rewrite (Z.mod_small y3 256) by lia.
  lia.
Qed.

(** The header [write_header] leaves in a fresh 44-byte buffer. *)
Lemma write_header_fields (sr ch bits len : Z) :
  exists hdr,
    write_header sr ch bits len (zero_buffer 44) = (Ok tt, hdr) /\
    length hdr = 44%nat /\
    firstn 4 hdr = [x52; x49; x46; x46] /\
    getUint32_le hdr 4 = (36 + len) mod 2 ^ 32 /\
    getUint32_le hdr 40 = len mod 2 ^ 32.
Proof.
  eexists. split; [cbn -[uint8]; reflexivity |].
  split; [reflexivity |].
  split; [reflexivity |].
  unfold getUint32_le. cbn -[uint8 byte_val Z.pow Z.shiftr Z.modulo].
  split; apply le32_roundtrip.
Qed.

Lemma getUint32_le_app (hdr pcm : list byte) (off : nat) :
  (off + 3 < length hdr)%nat ->
  getUint32_le (hdr ++ pcm) off = getUint32_le hdr off.
Proof.
  intro H. unfold getUint32_le.
  rewrite !app_nth1 by lia. reflexivity.
Qed.

End WavLayout.

Section WavClaims.
Import Wav.
Local Open Scope Z_scope.

(** The Blob [createAndPlayWAVBuffer] plays: a 44-byte header followed by
    the PCM bytes, its two size fields holding the PCM length and 36 more,
    each modulo 2^32. *)
Lemma createAndPlayWAVBuffer_blob_fields (pcm : list byte) :
  exists hdr,
    createAndPlayWAVBuffer_blob pcm = hdr ++ pcm /\ length hdr = 44%nat /\
    getUint32_le (hdr ++ pcm) 4 = (36 + Z.of_nat (length pcm)) mod 2 ^ 32 /\
    getUint32_le (hdr ++ pcm) 40 = Z.of_nat (length pcm) mod 2 ^ 32.
Proof.
  destruct (write_header_fields 24000 1 16 (Z.of_nat (length pcm)))
    as (hdr & Hw & Hl & _ & H4 & H40).
  exists hdr. unfold createAndPlayWAVBuffer_blob. rewrite Hw. simpl.
  repeat split; [assumption | |];
    rewrite getUint32_le_app by lia; assumption.
Qed.

(** C6: [createWAVBlob] rejects an empty PCM buffer with
    "PCM data cannot be empty".  For a non-empty PCM buffer and valid
    parameters it returns a 44-byte header beginning with RIFF followed by
    the unchanged PCM bytes; [createAndPlayWAVBuffer] builds the same
    layout, also for an empty buffer.  In both, the data-size field
    (offset 40) is the PCM length and the RIFF-size field (offset 4) is 36
    more, each modulo 2^32: exactly those values below 2^32 - 36 bytes of
    PCM, wrapped around above. *)
Theorem createWAVBlob_layout (pcm : list byte) (sampleRate numChannels bitsPerSample : Z) :
  createWAVBlob [] sampleRate numChannels bitsPerSample = Err "PCM data cannot be empty" /\
  (pcm <> [] -> 0 < sampleRate -> (numChannels = 1 \/ numChannels = 2) ->
   (bitsPerSample = 8 \/ bitsPerSample = 16) ->
   exists hdr,
     createWAVBlob pcm sampleRate numChannels bitsPerSample = Ok (hdr ++ pcm) /\
     length hdr = 44%nat /\
     firstn 4 hdr = [x52; x49; x46; x46] /\
     getUint32_le (hdr ++ pcm) 40 = Z.of_nat (length pcm) mod 2 ^ 32 /\
     getUint32_le (hdr ++ pcm) 4 = (36 + Z.of_nat (length pcm)) mod 2 ^ 32 /\
     (Z.of_nat (length pcm) < 2 ^ 32 - 36 ->
      getUint32_le (hdr ++ pcm) 40 = Z.of_nat (length pcm) /\
      getUint32_le (hdr ++ pcm) 4 = 36 + Z.of_nat (length pcm))) /\
  (exists hdr,
     createAndPlayWAVBuffer_blob pcm = hdr ++ pcm /\ length hdr = 44%nat /\
     getUint32_le (hdr ++ pcm) 40 = Z.of_nat (length pcm) mod 2 ^ 32 /\
     getUint32_le (hdr ++ pcm) 4 = (36 + Z.of_nat (length pcm)) mod 2 ^ 32 /\
     (Z.of_nat (length pcm) < 2 ^ 32 - 36 ->
      getUint32_le (hdr ++ pcm) 40 = Z.of_nat (length pcm) /\
      getUint32_le (hdr ++ pcm) 4 = 36 + Z.of_nat (length pcm))).
Proof.
  assert (Hsmall : Z.of_nat (length pcm) < 2 ^ 32 - 36 ->
                   Z.of_nat (length pcm) mod 2 ^ 32 = Z.of_nat (length pcm) /\
                   (36 + Z.of_nat (length pcm)) mod 2 ^ 32 = 36 + Z.of_nat (length pcm)).
  { intro Hlen. split; apply Z.mod_small; lia. }
  split; [reflexivity |]. split.
  - intros Hne Hsr Hch Hbits.
    destruct (write_header_fields sampleRate numChannels bitsPerSample
                (Z.of_nat (length pcm))) as (hdr & Hw & Hl & Hriff & H4 & H40).
    exists hdr.
    rewrite !getUint32_le_app by lia. rewrite H40, H4.
    split.
    + unfold createWAVBlob, createWAVheader.
      destruct pcm as [| b r]; [contradiction |].
      replace (sampleRate <=? 0) with false by (symmetry; apply Z.leb_gt; lia).
      replace ((numChannels <? 1) || (2 <? numChannels)) with false
        by (destruct Hch as [-> | ->]; reflexivity).
      replace (negb (bitsPerSample =? 16) && negb (bitsPerSample =? 8)) with false
        by (destruct Hbits as [-> | ->]; reflexivity).
      replace (Z.of_nat (length (b :: r)) <? 0) with false
        by (symmetry; apply Z.ltb_ge; lia).
      unfold bind at 1. rewrite Hw. reflexivity.
    + do 4 (split; [first [assumption | reflexivity] |]). exact Hsmall.
  - destruct (createAndPlayWAVBuffer_blob_fields pcm) as (hdr & He & Hl & H4 & H40).
    exists hdr. rewrite H40, H4. repeat split; try assumption; apply Hsmall; assumption.
Qed.

Lemma createWAVBlob_layout_witness :
  createWAVBlob [] 24000 1 16 = Err "PCM data cannot be empty" /\
  ((([x01; x02] : list byte) <> [] -> 0 < 24000 -> (1 = 1 \/ 1 = 2) ->
    (16 = 8 \/ 16 = 16) ->
    exists hdr,
      createWAVBlob [x01; x02] 24000 1 16 = Ok (hdr ++ [x01; x02]) /\
      length hdr = 44%nat /\
      firstn 4 hdr = [x52; x49; x46; x46] /\
      getUint32_le (hdr ++ [x01; x02]) 40 = Z.of_nat (length [x01; x02]) mod 2 ^ 32 /\
      getUint32_le (hdr ++ [x01; x02]) 4 = (36 + Z.of_nat (length [x01; x02])) mod 2 ^ 32 /\
      (Z.of_nat (length [x01; x02]) < 2 ^ 32 - 36 ->
       getUint32_le (hdr ++ [x01; x02]) 40 = Z.of_nat (length [x01; x02]) /\
       getUint32_le (hdr ++ [x01; x02]) 4 = 36 + Z.of_nat (length [x01; x02]))) /\
   (exists hdr,
      createAndPlayWAVBuffer_blob [x01; x02] = hdr ++ [x01; x02] /\
      length hdr = 44%nat /\
      getUint32_le (hdr ++ [x01; x02]) 40 = Z.of_nat (length [x01; x02]) mod 2 ^ 32 /\
      getUint32_le (hdr ++ [x01; x02]) 4 = (36 + Z.of_nat (length [x01; x02])) mod 2 ^ 32 /\
      (Z.of_nat (length [x01; x02]) < 2 ^ 32 - 36 ->
       getUint32_le (hdr ++ [x01; x02]) 40 = Z.of_nat (length [x01; x02]) /\
       getUint32_le (hdr ++ [x01; x02]) 4 = 36 + Z.of_nat (length [x01; x02])))).
Proof.
  exact (createWAVBlob_layout [x01; x02] 24000 1 16).
Defined.

(** C6 as stated fails: [createWAVBlob] rejects an empty PCM buffer, and
    for 2^32 - 36 bytes of PCM the RIFF-size field wraps around to 0. *)
Lemma createWAVBlob_claim_counterexample :
  createWAVBlob [] 24000 1 16 = Err "PCM data cannot be empty" /\
  getUint32_le (createAndPlayWAVBuffer_blob (repeat x00 (Z.to_nat (2 ^ 32 - 36)))) 4 = 0 /\
  Z.of_nat (length (repeat x00 (Z.to_nat (2 ^ 32 - 36)))) + 36 <> 0.
Proof.
  split; [reflexivity |].
  destruct (createAndPlayWAVBuffer_blob_fields (repeat x00 (Z.to_nat (2 ^ 32 - 36))))
    as (hdr & He & _ & H4 & _).
  rewrite He, H4, repeat_length, Z2Nat.id by lia.
  split; [reflexivity | lia].
Qed.

End WavClaims.

(* ------------------------------------------------------------------ *)
(** ** Base64 transport *)

Section Base64Roundtrip.
Import Wav Base64.
Local Open Scope Z_scope.

Lemma Z_below_64 (P : Z -> Prop) :
  (forall n : nat, (n < 64)%nat -> P (Z.of_nat n)) ->
  forall i, 0 <= i < 64 -> P i.
Proof.
  intros H i Hi. rewrite <- (Z2Nat.id i) by lia. apply H. lia.
Qed.

Ltac by_64_cases :=
  apply Z_below_64; intros n Hn;
  do 64 (destruct n as [| n]; [reflexivity |]); lia.

Lemma dec_enc_char (i : Z) : 0 <= i < 64 -> dec_char (enc_char i) = Some i.
Proof. revert i. by_64_cases. Qed.

Lemma enc_char_not_pad (i : Z) : 0 <= i < 64 -> Ascii.eqb (enc_char i) "=" = false.
Proof. revert i. by_64_cases. Qed.

Lemma enc_char_not_space (i : Z) :
  0 <= i < 64 -> is_ascii_whitespace (enc_char i) = false.
Proof. revert i. by_64_cases. Qed.

Lemma enc_char_not_comma (i : Z) : 0 <= i < 64 -> enc_char i <> ","%char.
Proof.
  intros Hi E. pose proof (dec_enc_char i Hi) as D. rewrite E in D.
  discriminate.
Qed.

Lemma div_mod_64_range (n k : Z) : 0 <= (n / k) mod 64 < 64.
Proof. apply Z.mod_pos_bound. lia. Qed.

Lemma encode_split (bs : list byte) :
  encode bs = map enc_char (sextets bs) ++ padding bs.
Proof.
  revert bs. fix IH 1.
  intros [| b0 [| b1 [| b2 r]]]; try reflexivity.
  simpl. rewrite (IH r). reflexivity.
Qed.

Lemma div_range (n k q : Z) : 0 < k -> 0 <= n < q * k -> 0 <= n / k < q.
Proof.
  intros Hk Hn. split; [apply Z.div_pos; lia | apply Z.div_lt_upper_bound; lia].
Qed.

Lemma sextets_range (bs : list byte) : Forall (fun v => 0 <= v < 64) (sextets bs).
Proof.
  revert bs. fix IH 1.
  intros [| b0 [| b1 [| b2 r]]]; simpl.
  - constructor.
  - pose proof (byte_val_bound b0).
    constructor; [apply div_range; lia |].
    constructor; [apply Z.mod_pos_bound; lia | constructor].
  - pose proof (byte_val_bound b0). pose proof (byte_val_bound b1).
    constructor; [apply div_range; lia |].
    do 2 (constructor; [apply Z.mod_pos_bound; lia |]). constructor.
  - pose proof (byte_val_bound b0). pose proof (byte_val_bound b1).
    pose proof (byte_val_bound b2).
    constructor; [apply div_range; lia |].
    do 3 (constructor; [apply Z.mod_pos_bound; lia |]). apply IH.
Qed.

(** The length of the 6-bit values and of the padding, by groups. *)
Lemma sextets_padding_length (bs : list byte) :
  (exists k, length (sextets bs) = (4 * k)%nat /\ padding bs = []) \/
  (exists k, length (sextets bs) = (4 * k + 3)%nat /\ padding bs = ["="%char]) \/
  (exists k, length (sextets bs) = (4 * k + 2)%nat /\
             padding bs = ["="%char; "="%char]).
Proof.
  revert bs. fix IH 1.
  intros [| b0 [| b1 [| b2 r]]].
  - left. exists 0%nat. split; reflexivity.
  - right; right. exists 0%nat. split; reflexivity.
  - right; left. exists 0%nat. split; reflexivity.
  - simpl. destruct (IH r) as [(k & Hk & Hp) | [(k & Hk & Hp) | (k & Hk & Hp)]];
      rewrite Hk, Hp.
    + left. exists (S k). split; [lia | reflexivity].
    + right; left. exists (S k). split; [lia | reflexivity].
    + right; right. exists (S k). split; [lia | reflexivity].
Qed.

Lemma strip_padding_encoded (xs : list Z) (pad : list ascii) :
  Forall (fun v => 0 <= v < 64) xs ->
  pad = [] \/ pad = ["="%char] \/ pad = ["="%char; "="%char] ->
  strip_padding (map enc_char xs ++ pad) = map enc_char xs.
Proof.
  intros Hr Hp.
  assert (Hrr : Forall (fun v => 0 <= v < 64) (rev xs))
    by (apply Forall_rev; assumption).
  assert (Hback : forall y ys, rev xs = y :: ys ->
            rev (enc_char y :: map enc_char ys) = map enc_char xs).
  { intros y ys E. rewrite <- map_cons, <- E, map_rev, rev_involutive.
    reflexivity. }
  unfold strip_padding.
  destruct Hp as [-> | [-> | ->]].
  - rewrite app_nil_r, <- map_rev.
    destruct (rev xs) as [| y ys] eqn:E; [reflexivity |].
    inversion Hrr; subst.
    destruct ys as [| y2 ys]; simpl; rewrite enc_char_not_pad by assumption;
      reflexivity.
  - rewrite rev_app_distr, <- map_rev. simpl.
    destruct (rev xs) as [| y ys] eqn:E; simpl.
    + apply (f_equal (@rev Z)) in E. rewrite rev_involutive in E.
      subst xs. reflexivity.
    + inversion Hrr; subst. rewrite enc_char_not_pad by assumption.
      exact (Hback y ys eq_refl).
  - rewrite rev_app_distr, <- map_rev. simpl.
    rewrite <- map_rev, rev_involutive. reflexivity.
Qed.

Lemma dec_all_encoded (xs : list Z) :
  Forall (fun v => 0 <= v < 64) xs -> dec_all (map enc_char xs) = Some xs.
Proof.
  induction 1 as [| x xs Hx _ IH]; [reflexivity |].
  simpl. rewrite dec_enc_char by assumption. rewrite IH. reflexivity.
Qed.

(** [x = 64 * (x / 64) + x mod 64], and the quotients by 64^2 and 64^3. *)
Lemma split_64 (x : Z) :
  x = 64 * (x / 64) + x mod 64 /\
  x / 64 = 64 * (x / 4096) + (x / 64) mod 64 /\
  x / 4096 = 64 * (x / 262144) + (x / 4096) mod 64.
Proof.
  assert (E1 : x / 4096 = x / 64 / 64) by (rewrite Z.div_div; reflexivity || lia).
  assert (E2 : x / 262144 = x / 4096 / 64) by (rewrite Z.div_div; reflexivity || lia).
  rewrite E2, E1.
  split; [| split]; apply Z.div_mod; lia.
Qed.

Lemma div_exact (a b q r : Z) : 0 <= r < b -> a = b * q + r -> a / b = q.
Proof. intros Hr Ha. symmetry. apply (Z.div_unique a b q r); [left |]; lia. Qed.

Lemma mod_exact (a b q r : Z) : 0 <= r < b -> a = b * q + r -> a mod b = r.
Proof. intros Hr Ha. symmetry. apply (Z.mod_unique a b q r); [left |]; lia. Qed.

Lemma group3_inverse (v0 v1 v2 : Z) :
  0 <= v0 < 256 -> 0 <= v1 < 256 -> 0 <= v2 < 256 ->
  let n := v0 * 65536 + v1 * 256 + v2 in
  let m := n / 262144 * 262144 + (n / 4096) mod 64 * 4096
           + (n / 64) mod 64 * 64 + n mod 64 in
  m / 65536 = v0 /\ (m / 256) mod 256 = v1 /\ m mod 256 = v2.
Proof.
  intros H0 H1 H2 n m.
  assert (Hm : m = n).
  { destruct (split_64 n) as (A & B & C). unfold m. lia. }
  rewrite Hm. unfold n.
  split; [| split].
  - apply (div_exact _ _ _ (v1 * 256 + v2)); lia.
  - rewrite (div_exact _ 256 (v0 * 256 + v1) v2) by lia.
    apply (mod_exact _ _ v0); lia.
  - apply (mod_exact _ _ (v0 * 256 + v1)); lia.
Qed.

Lemma group2_inverse (v0 v1 : Z) :
  0 <= v0 < 256 -> 0 <= v1 < 256 ->
  let n := v0 * 65536 + v1 * 256 in
  let m := (n / 262144 * 4096 + (n / 4096) mod 64 * 64 + (n / 64) mod 64) / 4 in
  m / 256 = v0 /\ m mod 256 = v1.
Proof.
  intros H0 H1 n m.
  assert (Hm : m = v0 * 256 + v1).
  { destruct (split_64 n) as (A & B & C).
    assert (n / 64 = 4 * (v0 * 256 + v1)) by (apply (div_exact _ _ _ 0); unfold n; lia).
    unfold m. apply (div_exact _ _ _ 0); lia. }
  rewrite Hm. split.
  - apply (div_exact _ _ _ v1); lia.
  - apply (mod_exact _ _ v0); lia.
Qed.

Lemma group1_inverse (v0 : Z) :
  0 <= v0 < 256 ->
  let n := v0 * 65536 in
  (n / 262144 * 64 + (n / 4096) mod 64) / 16 = v0.
Proof.
  intros H0 n.
  destruct (split_64 n) as (A & B & C).
  assert (n / 4096 = 16 * v0) by (apply (div_exact _ _ _ 0); unfold n; lia).
  apply (div_exact _ _ _ 0); lia.
Qed.

Lemma bytes_of_sextets_inverse (bs : list byte) :
  bytes_of_sextets (sextets bs) = map byte_val bs.
Proof.
  revert bs. fix IH 1.
  intros [| b0 [| b1 [| b2 r]]]; [reflexivity | | |];
    cbn [sextets bytes_of_sextets map];
    pose proof (byte_val_bound b0) as H0.
  - rewrite (group1_inverse _ H0). reflexivity.
  - pose proof (byte_val_bound b1) as H1.
    destruct (group2_inverse _ _ H0 H1) as [A B].
    rewrite A, B. reflexivity.
  - pose proof (byte_val_bound b1) as H1. pose proof (byte_val_bound b2) as H2.
    destruct (group3_inverse _ _ _ H0 H1 H2) as (A & B & C).
    rewrite A, B, C, IH. reflexivity.
Qed.

Lemma uint8_byte_val (b : byte) : uint8 (byte_val b) = b.
Proof.
  unfold uint8. pose proof (byte_val_bound b).
  rewrite Z.mod_small by assumption.
  unfold byte_val. rewrite N2Z.id, Byte.of_to_N. reflexivity.
Qed.

Lemma encode_no_space (bs : list byte) :
  filter (fun c => negb (is_ascii_whitespace c)) (encode bs) = encode bs.
Proof.
  rewrite encode_split. rewrite filter_app. f_equal.
  - pose proof (sextets_range bs) as R. induction R as [| x xs Hx _ IH];
      [reflexivity |].
    simpl. rewrite enc_char_not_space by assumption. simpl. rewrite IH. reflexivity.
  - destruct (sextets_padding_length bs) as [(k & _ & ->) | [(k & _ & ->) | (k & _ & ->)]];
      reflexivity.
Qed.

Lemma encode_length_mod4 (bs : list byte) :
  Nat.modulo (length (encode bs)) 4 = 0%nat.
Proof.
  rewrite encode_split, length_app, length_map.
  destruct (sextets_padding_length bs) as [(k & -> & ->) | [(k & -> & ->) | (k & -> & ->)]];
    simpl length.
  - rewrite Nat.add_0_r, Nat.mul_comm. apply Nat.Div0.mod_mul.
  - replace (4 * k + 3 + 1)%nat with ((k + 1) * 4)%nat by lia.
    apply Nat.Div0.mod_mul.
  - replace (4 * k + 2 + 2)%nat with ((k + 1) * 4)%nat by lia.
    apply Nat.Div0.mod_mul.
Qed.

Lemma sextets_length_mod4 (bs : list byte) :
  Nat.modulo (length (sextets bs)) 4 <> 1%nat.
Proof.
  destruct (sextets_padding_length bs) as [(k & -> & _) | [(k & -> & _) | (k & -> & _)]].
  - rewrite Nat.mul_comm, Nat.Div0.mod_mul. discriminate.
  - rewrite Nat.add_comm, Nat.mul_comm, Nat.Div0.mod_add. discriminate.
  - rewrite Nat.add_comm, Nat.mul_comm, Nat.Div0.mod_add. discriminate.
Qed.

(** [atob] inverts the base64 text of any byte sequence. *)
Lemma atob_encode (bs : list byte) :
  atob (string_of_list_ascii (encode bs)) = Ok (map byte_val bs).
Proof.
  unfold atob. rewrite list_ascii_of_string_of_list_ascii, encode_no_space.
  rewrite encode_length_mod4, Nat.eqb_refl.
  rewrite encode_split, strip_padding_encoded.
  - rewrite length_map.
    destruct (Nat.eqb_spec (Nat.modulo (length (sextets bs)) 4) 1) as [E | _].
    + exfalso. exact (sextets_length_mod4 bs E).
    + rewrite dec_all_encoded by apply sextets_range.
      rewrite bytes_of_sextets_inverse. reflexivity.
  - apply sextets_range.
  - destruct (sextets_padding_length bs) as [(k & _ & ->) | [(k & _ & ->) | (k & _ & ->)]];
      auto.
Qed.

Lemma list_ascii_of_string_app (a b : string) :
  list_ascii_of_string (a ++ b) = list_ascii_of_string a ++ list_ascii_of_string b.
Proof.
  induction a as [| c a IH]; [reflexivity |]. simpl. rewrite IH. reflexivity.
Qed.

Lemma split_comma_aux_app (cur l1 l2 : list ascii) :
  ~ In ","%char l1 ->
  split_comma_aux cur (l1 ++ ","%char :: l2)
  = string_of_list_ascii (rev cur ++ l1) :: split_comma_aux [] l2.
Proof.
  revert cur. induction l1 as [| c l1 IH]; intros cur Hn.
  - simpl. rewrite app_nil_r. reflexivity.
  - simpl. destruct (Ascii.eqb_spec c ","%char) as [E | _].
    + exfalso. apply Hn. left. exact E.
    + rewrite IH by (intro H; apply Hn; right; exact H).
      simpl. rewrite <- app_assoc. reflexivity.
Qed.

Lemma split_comma_aux_none (cur l : list ascii) :
  ~ In ","%char l ->
  split_comma_aux cur l = [string_of_list_ascii (rev cur ++ l)].
Proof.
  revert cur. induction l as [| c l IH]; intros cur Hn.
  - simpl. rewrite app_nil_r. reflexivity.
  - simpl. destruct (Ascii.eqb_spec c ","%char) as [E | _].
    + exfalso. apply Hn. left. exact E.
    + rewrite IH by (intro H; apply Hn; right; exact H).
      simpl. rewrite <- app_assoc. reflexivity.
Qed.

Lemma encode_no_comma (bs : list byte) : ~ In ","%char (encode bs).
Proof.
  rewrite encode_split. intro H. apply in_app_or in H. destruct H as [H | H].
  - apply in_map_iff in H. destruct H as (x & E & Hx).
    pose proof (sextets_range bs) as R. rewrite Forall_forall in R.
    apply (enc_char_not_comma x (R x Hx)). exact E.
  - destruct (sextets_padding_length bs) as [(k & _ & E) | [(k & _ & E) | (k & _ & E)]];
      rewrite E in H; simpl in H; intuition discriminate.
Qed.

Lemma encode_nonempty (bs : list byte) : bs <> [] -> encode bs <> [].
Proof.
  destruct bs as [| b0 [| b1 [| b2 r]]]; intro H; [contradiction | | |]; discriminate.
Qed.

Lemma truthy_str_of_nonempty (l : list ascii) :
  l <> [] -> truthy_str (string_of_list_ascii l) = true.
Proof.
  intro H. apply truthy_str_nonempty. destruct l as [| c l]; [contradiction |].
  discriminate.
Qed.

Lemma data_url_type_no_comma (ty : string) :
  ~ In ","%char (list_ascii_of_string ty) ->
  ~ In ","%char (list_ascii_of_string
                   (if String.eqb ty "" then "application/octet-stream" else ty)).
Proof.
  intro H. destruct (String.eqb ty ""); [| exact H].
  simpl. intuition discriminate.
Qed.

Lemma blobToBase64_encode (bs : list byte) (ty : string) :
  bs <> [] -> ~ In ","%char (list_ascii_of_string ty) ->
  blobToBase64 (mkBlob bs ty) = Ok (string_of_list_ascii (encode bs)).
Proof.
  intros Hbs Hty. unfold blobToBase64, readAsDataURL, split_comma. cbn [blob_type blob_bytes].
  destruct bs as [| b0 r]; [contradiction |]. set (bs := b0 :: r) in *.
  pose proof (data_url_type_no_comma ty Hty) as Ht.
  set (ty' := if String.eqb ty "" then "application/octet-stream" else ty) in *.
  rewrite !list_ascii_of_string_app, list_ascii_of_string_of_list_ascii.
  change (list_ascii_of_string ";base64,")
    with (list_ascii_of_string ";base64" ++ [","%char]).
  rewrite <- !app_assoc. cbn [app].
  rewrite app_assoc, app_assoc.
  rewrite split_comma_aux_app.
  - rewrite split_comma_aux_none by apply encode_no_comma.
    cbn [nth_error rev app]. rewrite truthy_str_of_nonempty by (apply encode_nonempty; exact Hbs).
    reflexivity.
  - intro H. apply in_app_or in H. destruct H as [H | H]; [apply in_app_or in H; destruct H as [H | H] |].
    + simpl in H. intuition discriminate.
    + exact (Ht H).
    + simpl in H. intuition discriminate.
Qed.

End Base64Roundtrip.


(* ------------------------------------------------------------------ *)
(** ** The recording state machine. *)

Section SessionInvariant.
Import Session.

Lemma bind_get {A} (k : Session -> SM A) (s : Session) : bind get k s = k s s.
Proof. reflexivity. Qed.

Lemma legal_log_cons2 (a b : RecordingState) (l : list RecordingState) :
  legal_log (a :: b :: l) = legal_step b a && legal_log (b :: l).
Proof. reflexivity. Qed.

Lemma bind_modify {A} (f : Session -> Session) (k : unit -> SM A) (s : Session) :
  bind (modify f) k s = k tt (f s).
Proof. reflexivity. Qed.

Lemma inv_push (s s' : Session) (st : RecordingState) :
  Inv s -> legal_step (currentState s) st = true ->
  currentState s' = st -> stateLog s' = st :: stateLog s -> Inv s'.
Proof.
  intros [H1 H2] Hl Hc Hlog. unfold Inv. rewrite Hlog, Hc. split; [reflexivity |].
  destruct (stateLog s) as [| h l]; [discriminate |].
  injection H1 as ->. rewrite legal_log_cons2, Hl, H2. reflexivity.
Qed.

Lemma pres_ret {A} (a : A) : Preserves (ret a).
Proof. intros s H. exact H. Qed.

Lemma pres_throw {A} (msg : string) : Preserves (A := A) (throw msg).
Proof. intros s H. exact H. Qed.

Lemma pres_get : Preserves get.
Proof. intros s H. exact H. Qed.

Lemma pres_bind {A B} (m : SM A) (k : A -> SM B) :
  Preserves m -> (forall a, Preserves (k a)) -> Preserves (bind m k).
Proof.
  intros Hm Hk s Hs. unfold bind. specialize (Hm s Hs).
  destruct (m s) as [[a | e] s']; [apply Hk |]; exact Hm.
Qed.

Lemma pres_try_catch {A} (m : SM A) (h : string -> SM A) :
  Preserves m -> (forall e, Preserves (h e)) -> Preserves (try_catch m h).
Proof.
  intros Hm Hh s Hs. unfold try_catch. specialize (Hm s Hs).
  destruct (m s) as [[a | e] s']; [| apply Hh]; exact Hm.
Qed.

Lemma pres_try_finally {A} (m : SM A) (f : SM unit) :
  Preserves m -> Preserves f -> Preserves (try_finally m f).
Proof.
  intros Hm Hf s Hs. unfold try_finally. specialize (Hm s Hs).
  destruct (m s) as [r s']. specialize (Hf s' Hm).
  destruct (f s') as [[u | e] s'']; exact Hf.
Qed.

(** A [modify] that leaves [currentState] and the log alone. *)
Lemma pres_keep (f : Session -> Session) :
  (forall s, currentState (f s) = currentState s /\ stateLog (f s) = stateLog s) ->
  Preserves (modify f).
Proof.
  intros Hf s [H1 H2]. destruct (Hf s) as [E1 E2]. cbn [snd modify].
  split; rewrite ?E1, ?E2; assumption.
Qed.

Ltac keep := apply pres_keep; intro; split; reflexivity.

Lemma pres_set_button p d : Preserves (set_button p d).
Proof. keep. Qed.
Lemma pres_set_chunks c : Preserves (set_chunks c).
Proof. keep. Qed.
Lemma pres_set_recorder r p : Preserves (set_recorder r p).
Proof. keep. Qed.
Lemma pres_set_streams n : Preserves (set_streams n).
Proof. keep. Qed.
Lemma pres_set_playing p : Preserves (set_playing p).
Proof. keep. Qed.
Lemma pres_set_interviewActive b : Preserves (set_interviewActive b).
Proof. keep. Qed.
Lemma pres_getUserMedia_call r : Preserves (getUserMedia_call r).
Proof. keep. Qed.
Lemma pres_showError m : Preserves (showError m).
Proof. keep. Qed.
Lemma pres_sendMessage a : Preserves (sendMessage a).
Proof. keep. Qed.

(** Assigning a state that may be entered from anywhere. *)
Lemma pres_set_state (st : RecordingState) :
  (forall from, legal_step from st = true) -> Preserves (set_state st).
Proof.
  intros Hl s Hs. eapply inv_push; [exact Hs | apply Hl | reflexivity | reflexivity].
Qed.

Lemma pres_updateButtonState (st : RecordingState) :
  (forall from, legal_step from st = true) -> Preserves (updateButtonState st).
Proof.
  intro Hl. unfold updateButtonState. apply pres_bind; [apply pres_get |].
  intro s. destruct (buttonPresent s).
  - apply pres_bind; [apply pres_set_state, Hl | intros; apply pres_set_button].
  - apply pres_ret.
Qed.

Lemma legal_READY from : legal_step from READY = true.
Proof. destruct from; reflexivity. Qed.

Lemma legal_AI_SPEAKING from : legal_step from AI_SPEAKING = true.
Proof. destruct from; reflexivity. Qed.

Create HintDb pres.
#[local] Hint Resolve pres_ret pres_throw pres_get pres_set_button pres_set_chunks
  pres_set_recorder pres_set_streams pres_set_playing pres_set_interviewActive
  pres_getUserMedia_call pres_showError pres_sendMessage
  pres_set_state pres_updateButtonState legal_READY legal_AI_SPEAKING : pres.

Ltac pres_step :=
  match goal with
  | |- Preserves (bind _ _) => apply pres_bind; [| intro]
  | |- Preserves (try_catch _ _) => apply pres_try_catch; [| intro]
  | |- Preserves (try_finally _ _) => apply pres_try_finally
  | |- Preserves ((fun _ => _) _) => cbv beta
  | |- Preserves (match ?x with _ => _ end) => destruct x
  | |- Preserves _ => solve [eauto with pres]
  end.
Ltac pres := repeat pres_step.

Lemma pres_resetToReadyState : Preserves resetToReadyState.
Proof. unfold resetToReadyState. pres. Qed.
#[local] Hint Resolve pres_resetToReadyState : pres.

Lemma pres_playAIResponse t r : Preserves (playAIResponse t r).
Proof. unfold playAIResponse, createAndPlayWAVBuffer. pres. Qed.
#[local] Hint Resolve pres_playAIResponse : pres.

Lemma pres_handleUserInteraction t env : Preserves (handleUserInteraction t env).
Proof. unfold handleUserInteraction, handleAIResponse. pres. Qed.
#[local] Hint Resolve pres_handleUserInteraction : pres.

Lemma pres_processRecordedAudio env : Preserves (processRecordedAudio env).
Proof. unfold processRecordedAudio. pres. Qed.
#[local] Hint Resolve pres_processRecordedAudio : pres.

Lemma pres_onstop env : Preserves (onstop env).
Proof. unfold onstop. pres. Qed.

Lemma pres_ondataavailable n : Preserves (ondataavailable n).
Proof. unfold ondataavailable. pres. Qed.

Lemma pres_onerror m : Preserves (onerror m).
Proof. unfold onerror. pres. Qed.

Lemma pres_onended : Preserves onended.
Proof. unfold onended. pres. Qed.

Lemma pres_onplayerror m : Preserves (onplayerror m).
Proof. unfold onplayerror. pres. Qed.

Lemma inv_startRecording (o : StartOutcome) (s : Session) :
  Inv s -> currentState s = READY -> Inv (snd (startRecording o s)).
Proof.
  intros Hs Hc. unfold startRecording.
  match goal with |- context [try_catch ?X ?Y] => set (rest := try_catch X Y) end.
  assert (Hrest : Preserves rest) by (subst rest; pres).
  clearbody rest.
  unfold updateButtonState. cbv [bind get set_state set_button modify ret snd].
  destruct (buttonPresent s); apply Hrest.
  - eapply (inv_push _ _ RECORDING); [| | reflexivity | reflexivity].
    + eapply (inv_push _ _ RECORDING); [exact Hs | rewrite Hc; reflexivity | reflexivity | reflexivity].
    + reflexivity.
  - eapply (inv_push _ _ RECORDING); [exact Hs | rewrite Hc; reflexivity | reflexivity | reflexivity].
Qed.

Lemma inv_stopRecording (s : Session) :
  Inv s -> currentState s = RECORDING -> Inv (snd (stopRecording s)).
Proof.
  intros Hs Hc. unfold stopRecording. rewrite bind_get.
  destruct (mediaRecorder s) as [[|] |]; [exact Hs | | exact Hs].
  unfold updateButtonState.
  cbv [bind get set_state set_button set_recorder modify ret snd].
  destruct (buttonPresent s).
  - eapply (inv_push _ _ PROCESSING); [| | reflexivity | reflexivity].
    + eapply (inv_push _ _ PROCESSING); [exact Hs | rewrite Hc; reflexivity | reflexivity | reflexivity].
    + reflexivity.
  - eapply (inv_push _ _ PROCESSING); [exact Hs | rewrite Hc; reflexivity | reflexivity | reflexivity].
Qed.

Lemma pres_handleRecordingClick (o : StartOutcome) : Preserves (handleRecordingClick o).
Proof.
  intros s Hs. unfold handleRecordingClick. rewrite bind_get.
  destruct (currentState s) eqn:E.
  - apply inv_startRecording; assumption.
  - apply inv_stopRecording; assumption.
  - exact Hs.
  - exact Hs.
Qed.

Lemma inv_step (s : Session) (e : Event) : Inv s -> Inv (step s e).
Proof.
  unfold step. destruct e; simpl handler.
  - apply pres_handleRecordingClick.
  - apply pres_ondataavailable.
  - apply pres_onstop.
  - apply pres_onerror.
  - apply pres_onended.
  - apply pres_onplayerror.
Qed.

Lemma inv_run (evs : list Event) (s : Session) : Inv s -> Inv (run evs s).
Proof.
  unfold run. revert s. induction evs as [| e evs IH]; intros s Hs; [exact Hs |].
  simpl. apply IH, inv_step, Hs.
Qed.

End SessionInvariant.

Section SessionClaims.
Import Session.

(** C1: from any session whose log holds just its current state, every
    run of events (button clicks, recorder data, stop and error events,
    playback end and rejection) only enters [RECORDING] from [READY] and
    only enters [PROCESSING] from [RECORDING]; and a click while
    [PROCESSING] or [AI_SPEAKING] changes nothing. *)
Theorem recording_transitions_legal (evs : list Event) (s : Session) :
  stateLog s = [currentState s] ->
  hd_error (stateLog (run evs s)) = Some (currentState (run evs s)) /\
  legal_log (stateLog (run evs s)) = true /\
  (forall o s', currentState s' = PROCESSING \/ currentState s' = AI_SPEAKING ->
                handleRecordingClick o s' = (Ok tt, s')).
Proof.
  intro Hlog. assert (Hs : Inv s) by (unfold Inv; rewrite Hlog; split; reflexivity).
  destruct (inv_run evs s Hs) as [H1 H2]. split; [exact H1 |]. split; [exact H2 |].
  intros o s' [E | E]; unfold handleRecordingClick; rewrite bind_get, E; reflexivity.
Qed.

Lemma recording_transitions_legal_witness :
  stateLog ready_session = [currentState ready_session] /\
  hd_error (stateLog (run one_turn ready_session)) =
    Some (currentState (run one_turn ready_session)) /\
  legal_log (stateLog (run one_turn ready_session)) = true /\
  (forall o s', currentState s' = PROCESSING \/ currentState s' = AI_SPEAKING ->
                handleRecordingClick o s' = (Ok tt, s')).
Proof.
  split; [reflexivity |]. apply recording_transitions_legal. reflexivity.
Defined.

(** C2 (defect): after one recorded turn the reply is still playing, yet
    the [finally] of [processRecordedAudio] has already put the session
    back to [READY] with the button enabled; a further click starts a
    second recording while the first reply plays. *)
Theorem playback_outlives_processing :
  let s := run one_turn ready_session in
  playing s <> None /\ currentState s = READY /\ buttonDisabled s = false /\
  currentState (step s (Click RecorderStarted)) = RECORDING /\
  mediaRecorder (step s (Click RecorderStarted)) = Some MR_recording /\
  playing (step s (Click RecorderStarted)) = playing s.
Proof.
  vm_compute. split; [discriminate |]. repeat split.
Qed.

(** C3 (defect): a failure of [mediaRecorder.start] is caught and the
    session is back at [READY] with no chunks and no recorder, but the
    captured stream is never stopped; and a denied microphone at
    [startInterview] leaves the session in [PROCESSING]. *)
Theorem caught_failure_leaks_stream :
  let s := run [Click RecorderStartFails] ready_session in
  currentState s = READY /\ audioChunks s = [] /\ mediaRecorder s = None /\
  liveStreams s = 1%nat /\
  errorsShown s = ["Failed to start recording: Failed to execute 'start' on 'MediaRecorder'"] /\
  let s2 := snd (startInterview false (RespOk "Hello") false idle_session) in
  currentState s2 = PROCESSING /\ buttonDisabled s2 = true /\
  errorsShown s2 =
    ["Failed to start interview: Microphone permission required";
     "Microphone access is required for voice recording. Please allow microphone access and try again."].
Proof.
  vm_compute. repeat split.
Qed.

(** C8: when the recorder stops with no chunk buffered, or with chunks
    of total size 0, no [speechToText] message is sent, one error
    [Failed to process recording: ...] is shown, and the session is reset:
    state [READY], no chunks, no recorder. *)
Theorem empty_recording_no_upload (env : PipelineEnv) (s : Session) :
  stopPending s = true ->
  audioChunks s = [] \/ blob_size (audioChunks s) = 0%nat ->
  messagesSent (snd (onstop env s)) = messagesSent s /\
  (exists e, errorsShown (snd (onstop env s)) =
               ("Failed to process recording: " ++ e)%string :: errorsShown s) /\
  currentState (snd (onstop env s)) = READY /\
  audioChunks (snd (onstop env s)) = [] /\
  mediaRecorder (snd (onstop env s)) = None.
Proof.
  intros Hp Hc. unfold onstop. rewrite bind_get, Hp.
  destruct s as [cs bp bd ch mr sp ls pl ia mq es ms lg]. cbn [audioChunks] in Hc.
  assert (Hthrow : exists e, forall s' : Session, audioChunks s' = ch ->
    (s <- get ;;
     match audioChunks s with
     | [] => throw "No audio data recorded"
     | chunks =>
         if Nat.eqb (blob_size chunks) 0 then throw "Recorded audio is empty"
         else
           sendMessage "speechToText" ;;;
           match sttResponse env with
           | RespErr e => throw e
           | RespOk t => handleUserInteraction (trim t) env
           end
     end) s' = (Err e, s')).
  { destruct Hc as [-> | Hz].
    - eexists. intros s' E. rewrite bind_get, E. reflexivity.
    - destruct ch as [| c ch]; [eexists; intros s' E; rewrite bind_get, E; reflexivity |].
      eexists. intros s' E. rewrite bind_get, E. cbv beta iota. rewrite Hz. reflexivity. }
  destruct Hthrow as [e He].
  unfold set_recorder, set_streams. rewrite !bind_modify.
  unfold processRecordedAudio, try_finally, try_catch.
  rewrite He by reflexivity.
  unfold resetToReadyState, updateButtonState.
  destruct bp, mr as [[|] |]; cbn; (split; [reflexivity |]);
    (split; [eexists; reflexivity |]); repeat split.
Qed.

Lemma empty_recording_no_upload_witness :
  let s := mkSession PROCESSING true true [] (Some MR_inactive) true 1 None true
             [] [] [] [PROCESSING; RECORDING; READY] in
  stopPending s = true /\ (audioChunks s = [] \/ blob_size (audioChunks s) = 0%nat) /\
  messagesSent (snd (onstop sample_env s)) = messagesSent s /\
  (exists e, errorsShown (snd (onstop sample_env s)) =
               ("Failed to process recording: " ++ e)%string :: errorsShown s) /\
  currentState (snd (onstop sample_env s)) = READY /\
  audioChunks (snd (onstop sample_env s)) = [] /\
  mediaRecorder (snd (onstop sample_env s)) = None.
Proof.
  intro s. split; [reflexivity |]. split; [left; reflexivity |].
  apply empty_recording_no_upload; [reflexivity | left; reflexivity].
Defined.

(** C9: a denied probe makes no capture request, and
    [requestMicrophonePermission] itself makes no state transition: it
    records only the probe, shows the microphone error and throws
    [Microphone permission required].  But [startInterview] has set
    [PROCESSING] (button disabled) just before the probe, and its catch
    only shows "Failed to start interview: ..." and clears
    [isInterviewActive]: the session is left in [PROCESSING] with the
    button disabled, not in [READY]. *)
Theorem permission_denied_leaves_processing (s : Session) (firstTime : bool)
  (firstResp : Response) :
  fst (requestMicrophonePermission false s) = Err "Microphone permission required" /\
  currentState (snd (requestMicrophonePermission false s)) = currentState s /\
  stateLog (snd (requestMicrophonePermission false s)) = stateLog s /\
  mediaRequests (snd (requestMicrophonePermission false s)) =
    Probe (currentState s) :: mediaRequests s /\
  liveStreams (snd (requestMicrophonePermission false s)) = liveStreams s /\
  mediaRecorder (snd (requestMicrophonePermission false s)) = mediaRecorder s /\
  errorsShown (snd (requestMicrophonePermission false s)) =
    "Microphone access is required for voice recording. Please allow microphone access and try again."
    :: errorsShown s /\
  let s2 := snd (startInterview firstTime firstResp false s) in
  mediaRequests s2 = Probe PROCESSING :: mediaRequests s /\
  liveStreams s2 = liveStreams s /\ mediaRecorder s2 = mediaRecorder s /\
  errorsShown s2 =
    "Failed to start interview: Microphone permission required"
    :: "Microphone access is required for voice recording. Please allow microphone access and try again."
    :: (if firstTime then
          match firstResp with
          | RespErr _ => ["Failed to send first prompt: "]
          | RespOk _ => []
          end
        else []) ++ errorsShown s /\
  currentState s2 = PROCESSING /\ buttonDisabled s2 = true /\
  interviewActive s2 = false.
Proof.
  destruct s as [cs bp bd ch mr sp ls pl ia mq es ms lg].
  destruct firstTime; [destruct firstResp |]; cbv zeta; repeat split.
Qed.

End SessionClaims.

(* ================================================================== *)
(** * Further properties of the code *)

(* ------------------------------------------------------------------ *)
(** ** [String.prototype.trim] *)

Section TrimFacts.

Lemma trim_start_suffix (s : string) :
  exists pre, list_ascii_of_string s = pre ++ list_ascii_of_string (trim_start s).
Proof.
  induction s as [| c r IH]; [exists []; reflexivity |].
  simpl. destruct (is_js_space c).
  - destruct IH as [pre E]. exists (c :: pre). simpl. rewrite E. reflexivity.
  - exists []. reflexivity.
Qed.

Lemma trim_start_head (s : string) :
  match list_ascii_of_string (trim_start s) with
  | [] => True
  | c :: _ => is_js_space c = false
  end.
Proof.
  induction s as [| c r IH]; [exact I |].
  simpl. destruct (is_js_space c) eqn:E; [exact IH | exact E].
Qed.

Lemma trim_start_id (s : string) :
  match list_ascii_of_string s with
  | [] => True
  | c :: _ => is_js_space c = false
  end -> trim_start s = s.
Proof.
  destruct s as [| c r]; [reflexivity |]. simpl. intro E. rewrite E. reflexivity.
Qed.

(** [trim_end] keeps a prefix, ending in a non-space character. *)
Lemma trim_end_prefix (x : string) :
  exists post, list_ascii_of_string x = list_ascii_of_string (trim_end x) ++ post.
Proof.
  unfold trim_end. rewrite list_ascii_of_string_of_list_ascii.
  destruct (trim_start_suffix (string_of_list_ascii (rev (list_ascii_of_string x))))
    as [pre E].
  rewrite list_ascii_of_string_of_list_ascii in E.
  exists (rev pre). rewrite <- rev_app_distr, <- E, rev_involutive. reflexivity.
Qed.

Lemma trim_end_last (x : string) :
  match rev (list_ascii_of_string (trim_end x)) with
  | [] => True
  | c :: _ => is_js_space c = false
  end.
Proof.
  unfold trim_end. rewrite list_ascii_of_string_of_list_ascii, rev_involutive.
  apply trim_start_head.
Qed.

Lemma trim_end_id (x : string) :
  match rev (list_ascii_of_string x) with
  | [] => True
  | c :: _ => is_js_space c = false
  end -> trim_end x = x.
Proof.
  intro H. unfold trim_end. rewrite trim_start_id.
  - rewrite !list_ascii_of_string_of_list_ascii, rev_involutive.
    apply string_of_list_ascii_of_string.
  - rewrite list_ascii_of_string_of_list_ascii. exact H.
Qed.

(** Every character of [trim s] is a character of [s]. *)
Lemma trim_chars (s : string) (c : ascii) :
  In c (list_ascii_of_string (trim s)) -> In c (list_ascii_of_string s).
Proof.
  intro H. unfold trim in H.
  destruct (trim_end_prefix (trim_start s)) as [post E1].
  destruct (trim_start_suffix s) as [pre E2].
  rewrite E2. apply in_or_app. right. rewrite E1. apply in_or_app. left. exact H.
Qed.

(** [trim] is idempotent. *)
Lemma trim_idem (s : string) : trim (trim s) = trim s.
Proof.
  unfold trim at 1. rewrite trim_start_id.
  - apply trim_end_id. apply trim_end_last.
  - unfold trim.
    destruct (trim_end_prefix (trim_start s)) as [post E].
    pose proof (trim_start_head s) as Hh.
    destruct (list_ascii_of_string (trim_end (trim_start s))) as [| c l];
      [exact I |].
    rewrite E in Hh. exact Hh.
Qed.

End TrimFacts.

(* ------------------------------------------------------------------ *)
(** ** Base64 in the content script *)

Section Base64Content.
Import Wav Base64 Content.

Lemma base64ToBufferArray_encode (bs : list byte) :
  bs <> [] -> base64ToBufferArray (string_of_list_ascii (encode bs)) = Ok bs.
Proof.
  intro Hbs. unfold base64ToBufferArray.
  rewrite truthy_str_of_nonempty by (apply encode_nonempty; exact Hbs).
  cbn [negb]. rewrite atob_encode, map_map.
  f_equal. rewrite <- (map_id bs) at 2. apply map_ext, uint8_byte_val.
Qed.

Lemma map_uint8_byte_val (bs : list byte) : map uint8 (map byte_val bs) = bs.
Proof.
  rewrite map_map. rewrite <- (map_id bs) at 2. apply map_ext, uint8_byte_val.
Qed.

(** [base64ToBlob] inverts [blobToBase64]: a non-empty Blob whose type
    has no comma, encoded by [blobToBase64] and decoded by [base64ToBlob]
    with any non-empty MIME type, gives back the same bytes, with the
    MIME type normalised as [new Blob] does. *)
Theorem base64ToBlob_blobToBase64 (bs : list byte) (ty mime : string) :
  bs <> [] -> ~ In ","%char (list_ascii_of_string ty) -> mime <> "" ->
  exists s, blobToBase64 (mkBlob bs ty) = Ok s /\
            base64ToBlob s mime = Ok (mkBlob bs (blob_type_of mime)).
Proof.
  intros Hbs Hty Hm. exists (string_of_list_ascii (encode bs)).
  split; [apply blobToBase64_encode; assumption |].
  unfold base64ToBlob.
  rewrite truthy_str_of_nonempty by (apply encode_nonempty; exact Hbs).
  rewrite (truthy_str_nonempty mime Hm). cbn [negb].
  rewrite atob_encode, map_map.
  f_equal. f_equal. rewrite <- (map_id bs) at 2. apply map_ext, uint8_byte_val.
Qed.

Lemma base64ToBlob_blobToBase64_witness :
  ([x41; x42; x43; x44] : list byte) <> [] /\
  ~ In ","%char (list_ascii_of_string "audio/webm") /\ "Audio/WAV" <> "" /\
  exists s, blobToBase64 (mkBlob [x41; x42; x43; x44] "audio/webm") = Ok s /\
            base64ToBlob s "Audio/WAV"
            = Ok (mkBlob [x41; x42; x43; x44] (blob_type_of "Audio/WAV")).
Proof.
  split; [discriminate |]. split; [simpl; intuition discriminate |].
  split; [discriminate |].
  apply base64ToBlob_blobToBase64;
    [discriminate | simpl; intuition discriminate | discriminate].
Defined.

(** A base64 text whose length, without ASCII whitespace, is one more
    than a multiple of four is rejected by [base64ToBlob] with the
    [atob] error, whatever the MIME type. *)
Theorem base64ToBlob_bad_length (base64 mime : string) :
  mime <> "" ->
  Nat.modulo (length (filter (fun c => negb (is_ascii_whitespace c))
                        (list_ascii_of_string base64))) 4 = 1 ->
  exists e, base64ToBlob base64 mime = Err ("Failed to convert base64 to blob: " ++ e)%string.
Proof.
  intros Hm Hl. unfold base64ToBlob.
  assert (Hb : truthy_str base64 = true).
  { apply truthy_str_nonempty. intro E. subst base64. discriminate Hl. }
  rewrite Hb, (truthy_str_nonempty mime Hm). cbn [negb].
  unfold atob. rewrite Hl. cbn [Nat.eqb]. rewrite Hl. eexists. reflexivity.
Qed.

Lemma base64ToBlob_bad_length_witness :
  "audio/wav" <> "" /\
  Nat.modulo (length (filter (fun c => negb (is_ascii_whitespace c))
                        (list_ascii_of_string "QUJD R"))) 4 = 1 /\
  exists e, base64ToBlob "QUJD R" "audio/wav"
            = Err ("Failed to convert base64 to blob: " ++ e)%string.
Proof.
  split; [discriminate |]. split; [reflexivity |].
  apply base64ToBlob_bad_length; [discriminate | reflexivity].
Defined.

End Base64Content.

(* ------------------------------------------------------------------ *)
(** ** The problem link *)

Section ProblemLink.
Import Content.

Lemma split_aux_none (sep : ascii) (cur l : list ascii) :
  ~ In sep l -> split_aux sep cur l = [string_of_list_ascii (rev cur ++ l)].
Proof.
  revert cur. induction l as [| c l IH]; intros cur Hn.
  - simpl. rewrite app_nil_r. reflexivity.
  - simpl. destruct (Ascii.eqb_spec c sep) as [E | _].
    + exfalso. apply Hn. left. exact E.
    + rewrite IH by (intro H; apply Hn; right; exact H).
      simpl. rewrite <- app_assoc. reflexivity.
Qed.

Lemma split_aux_first (sep : ascii) (l cur : list ascii) (c : ascii) :
  ~ In sep cur ->
  In c (list_ascii_of_string (nth 0 (split_aux sep cur l) "")) -> c <> sep.
Proof.
  revert cur. induction l as [| d l IH]; intros cur Hn H.
  - simpl in H. rewrite list_ascii_of_string_of_list_ascii, <- in_rev in H.
    intro E. subst c. exact (Hn H).
  - simpl in H. destruct (Ascii.eqb_spec d sep) as [E | Ne].
    + simpl in H. rewrite list_ascii_of_string_of_list_ascii, <- in_rev in H.
      intro E'. subst c. exact (Hn H).
    + apply (IH (d :: cur)); [| exact H].
      intros [E | E]; [exact (Ne E) | exact (Hn E)].
Qed.

(** The link in [getLeetcodeProblemTitleAndLink] holds no [?], has no
    leading or trailing whitespace, and is the trimmed URL itself when
    the URL has no query part. *)
Theorem problem_link_clean (url title : string) :
  exists link,
    getLeetcodeProblemTitleAndLink url title
    = ("Title: " ++ title ++ ", Link: " ++ link)%string /\
    ~ In "?"%char (list_ascii_of_string link) /\
    trim link = link /\
    (~ In "?"%char (list_ascii_of_string url) -> link = trim url).
Proof.
  exists (trim (nth 0 (split "?"%char url) "")). split; [reflexivity |].
  split; [| split].
  - intro H. apply trim_chars in H.
    exact (split_aux_first "?"%char _ [] "?"%char (fun H => H) H eq_refl).
  - apply trim_idem.
  - intro Hn. unfold split. rewrite split_aux_none by exact Hn.
    simpl. rewrite string_of_list_ascii_of_string. reflexivity.
Qed.

End ProblemLink.

(* ------------------------------------------------------------------ *)
(** ** The WAV header fields, and the two WAV builders *)

Section WavFields.
Import Wav.
Local Open Scope Z_scope.

(** A little-endian 16-bit field reads back as its value modulo 2^16. *)
Lemma le16_roundtrip (v : Z) :
  byte_val (uint8 (v mod 2 ^ 16))
  + 256 * byte_val (uint8 (Z.shiftr (v mod 2 ^ 16) 8)) = v mod 2 ^ 16.
Proof.
  rewrite !byte_val_uint8, Z.shiftr_div_pow2 by lia.
  pose proof (Z.mod_pos_bound v (2 ^ 16) ltac:(lia)).
  change (2 ^ 8) with 256 in *. change (2 ^ 16) with 65536 in *.
  set (x := v mod 65536) in *.
  assert (x = 256 * (x / 256) + x mod 256) by (apply Z.div_mod; lia).
  assert (0 <= x / 256 < 256)
    by (split; [apply Z.div_pos; lia | apply Z.div_lt_upper_bound; lia]).
  rewrite (Z.mod_small (x / 256) 256) by lia.
  lia.
Qed.

(** Every field [write_header] writes into a fresh 44-byte buffer. *)
Lemma write_header_all_fields (sr ch bits len : Z) :
  exists hdr,
    write_header sr ch bits len (zero_buffer 44) = (Ok tt, hdr) /\
    length hdr = 44%nat /\
    firstn 4 hdr = [x52; x49; x46; x46] /\
    firstn 4 (skipn 8 hdr) = [x57; x41; x56; x45] /\
    firstn 4 (skipn 12 hdr) = [x66; x6d; x74; x20] /\
    firstn 4 (skipn 36 hdr) = [x64; x61; x74; x61] /\
    getUint32_le hdr 4 = (36 + len) mod 2 ^ 32 /\
    getUint32_le hdr 16 = 16 /\
    getUint16_le hdr 20 = 1 /\
    getUint16_le hdr 22 = ch mod 2 ^ 16 /\
    getUint32_le hdr 24 = sr mod 2 ^ 32 /\
    getUint32_le hdr 28 = (sr * (ch * bits / 8)) mod 2 ^ 32 /\
    getUint16_le hdr 32 = (ch * bits / 8) mod 2 ^ 16 /\
    getUint16_le hdr 34 = bits mod 2 ^ 16 /\
    getUint32_le hdr 40 = len mod 2 ^ 32.
Proof.
  eexists. split; [cbn -[uint8]; reflexivity |].
  split; [reflexivity |].
  do 4 (split; [reflexivity |]).
  unfold getUint32_le, getUint16_le.
  cbn -[uint8 byte_val Z.pow Z.shiftr Z.modulo Z.mul Z.div Z.add].
  repeat split;
    first [ apply le32_roundtrip | apply le16_roundtrip
          | rewrite le32_roundtrip; reflexivity
          | rewrite le16_roundtrip; reflexivity ].
Qed.

(** [createWAVBlob] on valid parameters and a non-empty buffer. *)
Lemma createWAVBlob_valid (pcm : list byte) (sr ch bits : Z) :
  pcm <> [] -> 0 < sr -> (ch = 1 \/ ch = 2) -> (bits = 8 \/ bits = 16) ->
  createWAVBlob pcm sr ch bits
  = Ok (snd (write_header sr ch bits (Z.of_nat (length pcm)) (zero_buffer 44)) ++ pcm).
Proof.
  intros Hne Hsr Hch Hbits.
  destruct (write_header_all_fields sr ch bits (Z.of_nat (length pcm)))
    as (hdr & Hw & _).
  unfold createWAVBlob, createWAVheader.
  destruct pcm as [| b r]; [contradiction |].
  replace (sr <=? 0) with false by (symmetry; apply Z.leb_gt; lia).
  replace ((ch <? 1) || (2 <? ch)) with false
    by (destruct Hch as [-> | ->]; reflexivity).
  replace (negb (bits =? 16) && negb (bits =? 8)) with false
    by (destruct Hbits as [-> | ->]; reflexivity).
  replace (Z.of_nat (length (b :: r)) <? 0) with false
    by (symmetry; apply Z.ltb_ge; lia).
  unfold bind at 1. rewrite Hw. reflexivity.
Qed.

Lemma createWAVBlob_24k (pcm : list byte) :
  pcm <> [] -> createWAVBlob pcm 24000 1 16 = Ok (createAndPlayWAVBuffer_blob pcm).
Proof.
  intro Hne. rewrite createWAVBlob_valid by (auto; lia). reflexivity.
Qed.

(** [createWAVBlob(pcm, 24000, 1, 16)], as [createAudioElementFromBase64]
    calls it, builds exactly the bytes [createAndPlayWAVBuffer] builds for
    the same non-empty PCM buffer. *)
Theorem createWAVBlob_matches_player (pcm : list byte) :
  pcm <> [] -> createWAVBlob pcm 24000 1 16 = Ok (createAndPlayWAVBuffer_blob pcm).
Proof.
  apply createWAVBlob_24k.
Qed.

Lemma createWAVBlob_matches_player_witness :
  ([x01; x02] : list byte) <> [] /\
  createWAVBlob [x01; x02] 24000 1 16 = Ok (createAndPlayWAVBuffer_blob [x01; x02]).
Proof.
  split; [discriminate |]. apply createWAVBlob_matches_player. discriminate.
Defined.

(** On valid parameters, [createWAVheader] returns a 44-byte header whose
    chunk markers read RIFF, WAVE, [fmt ] and [data], and whose fields,
    read back with [getUint16]/[getUint32], give the format (PCM = 1), the
    channel count, sample rate, byte rate, block align and bit depth, and
    the two sizes modulo 2^32. *)
Theorem createWAVheader_fields (sr ch bits len : Z) :
  0 < sr -> (ch = 1 \/ ch = 2) -> (bits = 8 \/ bits = 16) -> 0 <= len ->
  exists hdr,
    createWAVheader sr ch bits len = Ok hdr /\
    length hdr = 44%nat /\
    firstn 4 hdr = [x52; x49; x46; x46] /\
    firstn 4 (skipn 8 hdr) = [x57; x41; x56; x45] /\
    firstn 4 (skipn 12 hdr) = [x66; x6d; x74; x20] /\
    firstn 4 (skipn 36 hdr) = [x64; x61; x74; x61] /\
    getUint32_le hdr 4 = (36 + len) mod 2 ^ 32 /\
    getUint32_le hdr 16 = 16 /\
    getUint16_le hdr 20 = 1 /\
    getUint16_le hdr 22 = ch /\
    getUint32_le hdr 24 = sr mod 2 ^ 32 /\
    getUint32_le hdr 28 = (sr * (ch * bits / 8)) mod 2 ^ 32 /\
    getUint16_le hdr 32 = ch * bits / 8 /\
    getUint16_le hdr 34 = bits /\
    getUint32_le hdr 40 = len mod 2 ^ 32.
Proof.
  intros Hsr Hch Hbits Hlen.
  destruct (write_header_all_fields sr ch bits len)
    as (hdr & Hw & Hl & H0 & H8 & H12 & H36 & H4 & H16 & H20 & H22 & H24 & H28
        & H32 & H34 & H40).
  exists hdr. split.
  - unfold createWAVheader.
    replace (sr <=? 0) with false by (symmetry; apply Z.leb_gt; lia).
    replace ((ch <? 1) || (2 <? ch)) with false
      by (destruct Hch as [-> | ->]; reflexivity).
    replace (negb (bits =? 16) && negb (bits =? 8)) with false
      by (destruct Hbits as [-> | ->]; reflexivity).
    replace (len <? 0) with false by (symmetry; apply Z.ltb_ge; lia).
    unfold bind. rewrite Hw. reflexivity.
  - rewrite H22, H32, H34.
    destruct Hch as [-> | ->]; destruct Hbits as [-> | ->];
      repeat split; assumption.
Qed.

Lemma createWAVheader_fields_witness :
  0 < 24000 /\ (2 = 1 \/ 2 = 2) /\ (8 = 8 \/ 8 = 16) /\ 0 <= 10 /\
  exists hdr,
    createWAVheader 24000 2 8 10 = Ok hdr /\
    length hdr = 44%nat /\
    firstn 4 hdr = [x52; x49; x46; x46] /\
    firstn 4 (skipn 8 hdr) = [x57; x41; x56; x45] /\
    firstn 4 (skipn 12 hdr) = [x66; x6d; x74; x20] /\
    firstn 4 (skipn 36 hdr) = [x64; x61; x74; x61] /\
    getUint32_le hdr 4 = (36 + 10) mod 2 ^ 32 /\
    getUint32_le hdr 16 = 16 /\
    getUint16_le hdr 20 = 1 /\
    getUint16_le hdr 22 = 2 /\
    getUint32_le hdr 24 = 24000 mod 2 ^ 32 /\
    getUint32_le hdr 28 = (24000 * (2 * 8 / 8)) mod 2 ^ 32 /\
    getUint16_le hdr 32 = 2 * 8 / 8 /\
    getUint16_le hdr 34 = 8 /\
    getUint32_le hdr 40 = 10 mod 2 ^ 32.
Proof.
  split; [lia |]. split; [right; reflexivity |]. split; [left; reflexivity |].
  split; [lia |].
  apply createWAVheader_fields; [lia | right; reflexivity | left; reflexivity | lia].
Defined.

End WavFields.

(* ------------------------------------------------------------------ *)
(** ** Background speech services *)

Section BackgroundServices.
Import Chat Wav Base64 Background.

Lemma filter_all_whitespace (l : list ascii) :
  forallb is_ascii_whitespace l = true ->
  filter (fun c => negb (is_ascii_whitespace c)) l = [].
Proof.
  induction l as [| c l IH]; [reflexivity |].
  simpl. intro H. apply andb_prop in H. destruct H as [H1 H2].
  rewrite H1. simpl. apply IH, H2.
Qed.

Lemma createAudioElementFromBase64_encode_aux (pcm : list byte) (mime : string) :
  pcm <> [] ->
  createAudioElementFromBase64 (string_of_list_ascii (encode pcm)) mime
  = Ok (mkBlob (createAndPlayWAVBuffer_blob pcm) "audio/wav").
Proof.
  intro Hne. unfold createAudioElementFromBase64.
  rewrite truthy_str_of_nonempty by (apply encode_nonempty; exact Hne).
  cbn [negb]. rewrite base64ToBufferArray_encode by exact Hne.
  rewrite createWAVBlob_24k by exact Hne. reflexivity.
Qed.

(** The speech data [createAudioElementFromBase64] receives as base64
    text is wrapped in exactly the WAV container [createAndPlayWAVBuffer]
    builds, whatever MIME type hint is passed. *)
Theorem createAudioElementFromBase64_encode (pcm : list byte) (mime : string) :
  pcm <> [] ->
  createAudioElementFromBase64 (string_of_list_ascii (encode pcm)) mime
  = Ok (mkBlob (createAndPlayWAVBuffer_blob pcm) "audio/wav").
Proof.
  apply createAudioElementFromBase64_encode_aux.
Qed.

Lemma createAudioElementFromBase64_encode_witness :
  ([x00; x01] : list byte) <> [] /\
  createAudioElementFromBase64 (string_of_list_ascii (encode [x00; x01])) "audio/L16"
  = Ok (mkBlob (createAndPlayWAVBuffer_blob [x00; x01]) "audio/wav").
Proof.
  split; [discriminate |]. apply createAudioElementFromBase64_encode. discriminate.
Defined.

(** A non-empty base64 argument made only of ASCII whitespace passes the
    required-data check of [createAudioElementFromBase64] but decodes to
    no bytes, and is rejected as empty PCM data. *)
Theorem createAudioElementFromBase64_blank (base64 mime : string) :
  base64 <> "" -> forallb is_ascii_whitespace (list_ascii_of_string base64) = true ->
  createAudioElementFromBase64 base64 mime
  = Err "Failed to create audio from base64: PCM data cannot be empty".
Proof.
  intros Hne Hws. unfold createAudioElementFromBase64, base64ToBufferArray.
  rewrite (truthy_str_nonempty base64 Hne). cbn [negb].
  unfold atob. rewrite filter_all_whitespace by exact Hws. reflexivity.
Qed.

Lemma createAudioElementFromBase64_blank_witness :
  " " <> "" /\ forallb is_ascii_whitespace (list_ascii_of_string " ") = true /\
  createAudioElementFromBase64 " " "audio/wav"
  = Err "Failed to create audio from base64: PCM data cannot be empty".
Proof.
  split; [discriminate |]. split; [reflexivity |].
  apply createAudioElementFromBase64_blank; [discriminate | reflexivity].
Defined.

(** What [handleSpeechToText] answers for a non-empty audio argument when
    the model gives no usable transcript: with no candidates, the
    speech-to-text failure message; with a first candidate without
    content parts, "No text could be extracted from audio"; with a first
    part whose text is missing or blank, the specific extraction error is
    replaced by "Invalid or corrupted audio data". *)
Theorem handleSpeechToText_no_transcript (audioBlob : string) :
  audioBlob <> "" ->
  handleSpeechToText audioBlob (ApiResponse None)
    = Failure "Speech-to-text failed: API did not return any candidates" /\
  handleSpeechToText audioBlob (ApiResponse (Some []))
    = Failure "Speech-to-text failed: API did not return any candidates" /\
  (forall c cs,
     content c = None \/ content c = Some None \/ content c = Some (Some []) ->
     handleSpeechToText audioBlob (ApiResponse (Some (c :: cs)))
     = Failure "No text could be extracted from audio") /\
  (forall c cs p ps,
     content c = Some (Some (p :: ps)) ->
     (part_text p = None \/ exists t, part_text p = Some t /\ trim t = "") ->
     handleSpeechToText audioBlob (ApiResponse (Some (c :: cs)))
     = Failure "Invalid or corrupted audio data").
Proof.
  intro Hne. unfold handleSpeechToText, speechToText.
  rewrite (truthy_str_nonempty audioBlob Hne). cbn [negb].
  split; [reflexivity |]. split; [reflexivity |]. split.
  - intros c cs Hc. cbn [speechToText_try].
    destruct Hc as [-> | [-> | ->]]; reflexivity.
  - intros c cs p ps Hc Hp. cbn [speechToText_try]. rewrite Hc.
    destruct Hp as [-> | (t & -> & Ht)]; [reflexivity |].
    rewrite Ht. reflexivity.
Qed.

Lemma handleSpeechToText_no_transcript_witness :
  "UklGRg==" <> "" /\
  handleSpeechToText "UklGRg==" (ApiResponse None)
    = Failure "Speech-to-text failed: API did not return any candidates" /\
  handleSpeechToText "UklGRg==" (ApiResponse (Some []))
    = Failure "Speech-to-text failed: API did not return any candidates" /\
  (forall c cs,
     content c = None \/ content c = Some None \/ content c = Some (Some []) ->
     handleSpeechToText "UklGRg==" (ApiResponse (Some (c :: cs)))
     = Failure "No text could be extracted from audio") /\
  (forall c cs p ps,
     content c = Some (Some (p :: ps)) ->
     (part_text p = None \/ exists t, part_text p = Some t /\ trim t = "") ->
     handleSpeechToText "UklGRg==" (ApiResponse (Some (c :: cs)))
     = Failure "Invalid or corrupted audio data").
Proof.
  split; [discriminate |]. apply handleSpeechToText_no_transcript. discriminate.
Defined.

(** A successful [handleSpeechToText] answer carries a non-empty text
    with no leading or trailing whitespace: the trimmed text of the first
    part of the first candidate the model returned. *)
Theorem handleSpeechToText_success (audioBlob : string) (g : GenOutcome) (t : string) :
  handleSpeechToText audioBlob g = Success t ->
  t <> "" /\ trim t = t /\
  exists c cs p ps txt,
    g = ApiResponse (Some (c :: cs)) /\ content c = Some (Some (p :: ps)) /\
    part_text p = Some txt /\ t = trim txt.
Proof.
  unfold handleSpeechToText, speechToText.
  destruct (truthy_str audioBlob); cbn [negb]; [| discriminate].
  destruct g as [msg | [[| c cs] |]]; cbn [speechToText_try]; try discriminate.
  destruct (content c) as [[[| p ps] |] |] eqn:Hc; try discriminate.
  destruct (part_text p) as [txt |] eqn:Hp; [| discriminate].
  destruct (String.eqb_spec (trim txt) "") as [_ | Hn]; [discriminate |].
  rewrite (truthy_str_nonempty _ Hn). cbn [negb]. intro E. injection E as <-.
  split; [exact Hn |]. split; [apply trim_idem |].
  exists c, cs, p, ps, txt. repeat split; assumption.
Qed.

Lemma handleSpeechToText_success_witness :
  handleSpeechToText "UklGRg=="
    (ApiResponse (Some [mkCandidate (Some (Some [mkPart (Some " two sum ")]))]))
  = Success "two sum" /\
  ("two sum" <> "" /\ trim "two sum" = "two sum" /\
   exists c cs p ps txt,
     ApiResponse (Some [mkCandidate (Some (Some [mkPart (Some " two sum ")]))])
     = ApiResponse (Some (c :: cs)) /\ content c = Some (Some (p :: ps)) /\
     part_text p = Some txt /\ "two sum" = trim txt).
Proof.
  split; [vm_compute; reflexivity |].
  apply (handleSpeechToText_success "UklGRg=="). vm_compute. reflexivity.
Defined.

(** [textToSpeech] on a non-empty text: when the first part of the first
    candidate holds base64 speech data, the result is that PCM wrapped in
    the 24 kHz mono 16-bit WAV container; when the first candidate has no
    content parts, the result is an empty Blob rather than an error. *)
Theorem textToSpeech_results (text : string) :
  text <> "" ->
  (forall pcm mt ps cs,
     pcm <> [] ->
     textToSpeech text
       (TtsResponse (Some (mkAudioCandidate
          (Some (Some (mkAudioPart (Some (mkInlineData
             (Some (string_of_list_ascii (encode pcm))) mt)) :: ps))) :: cs)))
     = Ok (mkBlob (createAndPlayWAVBuffer_blob pcm) "audio/wav")) /\
  (forall c cs,
     audio_content c = None \/ audio_content c = Some None \/
     audio_content c = Some (Some []) ->
     textToSpeech text (TtsResponse (Some (c :: cs))) = Ok (mkBlob [] "")).
Proof.
  intro Hne. unfold textToSpeech. rewrite (truthy_str_nonempty text Hne). cbn [negb].
  split.
  - intros pcm mt ps cs Hpcm. cbn [textToSpeech_try audio_content inlineData].
    rewrite truthy_str_of_nonempty by (apply encode_nonempty; exact Hpcm).
    cbn [negb]. rewrite createAudioElementFromBase64_encode_aux by exact Hpcm.
    reflexivity.
  - intros c cs Hc. cbn [textToSpeech_try].
    destruct Hc as [-> | [-> | ->]]; reflexivity.
Qed.

Lemma textToSpeech_results_witness :
  "Hello" <> "" /\
  (forall pcm mt ps cs,
     pcm <> [] ->
     textToSpeech "Hello"
       (TtsResponse (Some (mkAudioCandidate
          (Some (Some (mkAudioPart (Some (mkInlineData
             (Some (string_of_list_ascii (encode pcm))) mt)) :: ps))) :: cs)))
     = Ok (mkBlob (createAndPlayWAVBuffer_blob pcm) "audio/wav")) /\
  (forall c cs,
     audio_content c = None \/ audio_content c = Some None \/
     audio_content c = Some (Some []) ->
     textToSpeech "Hello" (TtsResponse (Some (c :: cs))) = Ok (mkBlob [] "")).
Proof.
  split; [discriminate |]. apply textToSpeech_results. discriminate.
Defined.

End BackgroundServices.

(* ------------------------------------------------------------------ *)
(** ** Buffered chunks *)

Section ChunkInvariant.
Import Session.

Lemma keeps_ret {A} (a : A) : Keeps chunks_positive (ret a).
Proof. intros s H. exact H. Qed.

Lemma keeps_throw {A} (msg : string) : Keeps chunks_positive (A := A) (throw msg).
Proof. intros s H. exact H. Qed.

Lemma keeps_get : Keeps chunks_positive get.
Proof. intros s H. exact H. Qed.

Lemma keeps_bind {A B} (m : SM A) (k : A -> SM B) :
  Keeps chunks_positive m -> (forall a, Keeps chunks_positive (k a)) ->
  Keeps chunks_positive (bind m k).
Proof.
  intros Hm Hk s Hs. unfold bind. specialize (Hm s Hs).
  destruct (m s) as [[a | e] s']; [apply Hk |]; exact Hm.
Qed.

Lemma keeps_try_catch {A} (m : SM A) (h : string -> SM A) :
  Keeps chunks_positive m -> (forall e, Keeps chunks_positive (h e)) ->
  Keeps chunks_positive (try_catch m h).
Proof.
  intros Hm Hh s Hs. unfold try_catch. specialize (Hm s Hs).
  destruct (m s) as [[a | e] s']; [| apply Hh]; exact Hm.
Qed.

Lemma keeps_try_finally {A} (m : SM A) (f : SM unit) :
  Keeps chunks_positive m -> Keeps chunks_positive f ->
  Keeps chunks_positive (try_finally m f).
Proof.
  intros Hm Hf s Hs. unfold try_finally. specialize (Hm s Hs).
  destruct (m s) as [r s']. specialize (Hf s' Hm).
  destruct (f s') as [[u | e] s'']; exact Hf.
Qed.

(** A [modify] that leaves [audioChunks] alone. *)
Lemma keeps_modify (f : Session -> Session) :
  (forall s, audioChunks (f s) = audioChunks s) -> Keeps chunks_positive (modify f).
Proof.
  intros Hf s Hs. unfold chunks_positive. cbn [snd modify]. rewrite Hf. exact Hs.
Qed.

Ltac chunks_same := apply keeps_modify; intro; reflexivity.

Lemma keeps_set_state st : Keeps chunks_positive (set_state st).
Proof. chunks_same. Qed.
Lemma keeps_set_button p d : Keeps chunks_positive (set_button p d).
Proof. chunks_same. Qed.
Lemma keeps_set_recorder r p : Keeps chunks_positive (set_recorder r p).
Proof. chunks_same. Qed.
Lemma keeps_set_streams n : Keeps chunks_positive (set_streams n).
Proof. chunks_same. Qed.
Lemma keeps_set_playing p : Keeps chunks_positive (set_playing p).
Proof. chunks_same. Qed.
Lemma keeps_set_interviewActive b : Keeps chunks_positive (set_interviewActive b).
Proof. chunks_same. Qed.
Lemma keeps_getUserMedia_call r : Keeps chunks_positive (getUserMedia_call r).
Proof. chunks_same. Qed.
Lemma keeps_showError m : Keeps chunks_positive (showError m).
Proof. chunks_same. Qed.
Lemma keeps_sendMessage a : Keeps chunks_positive (sendMessage a).
Proof. chunks_same. Qed.

Lemma keeps_set_chunks_nil : Keeps chunks_positive (set_chunks []).
Proof. intros s _. constructor. Qed.

Create HintDb chunks.
#[local] Hint Resolve keeps_ret keeps_throw keeps_get keeps_set_state
  keeps_set_button keeps_set_recorder keeps_set_streams keeps_set_playing
  keeps_set_interviewActive keeps_getUserMedia_call keeps_showError
  keeps_sendMessage keeps_set_chunks_nil : chunks.

Ltac chunks_step :=
  match goal with
  | |- Keeps _ (bind _ _) => apply keeps_bind; [| intro]
  | |- Keeps _ (try_catch _ _) => apply keeps_try_catch; [| intro]
  | |- Keeps _ (try_finally _ _) => apply keeps_try_finally
  | |- Keeps _ ((fun _ => _) _) => cbv beta
  | |- Keeps _ (match ?x with _ => _ end) => destruct x
  | |- Keeps _ _ => solve [eauto with chunks]
  end.
Ltac chunks := repeat chunks_step.

Lemma keeps_updateButtonState st : Keeps chunks_positive (updateButtonState st).
Proof. unfold updateButtonState. chunks. Qed.
#[local] Hint Resolve keeps_updateButtonState : chunks.

Lemma keeps_resetToReadyState : Keeps chunks_positive resetToReadyState.
Proof. unfold resetToReadyState. chunks. Qed.
#[local] Hint Resolve keeps_resetToReadyState : chunks.

Lemma keeps_processRecordedAudio env : Keeps chunks_positive (processRecordedAudio env).
Proof.
  unfold processRecordedAudio, handleUserInteraction, handleAIResponse,
    playAIResponse, createAndPlayWAVBuffer.
  chunks.
Qed.

Lemma keeps_ondataavailable n : Keeps chunks_positive (ondataavailable n).
Proof.
  intros s Hs. unfold ondataavailable. rewrite bind_get.
  destruct (Nat.ltb_spec 0 n) as [Hn | _]; [| exact Hs].
  unfold chunks_positive. cbn [snd set_chunks modify audioChunks].
  apply Forall_app. split; [exact Hs | constructor; [exact Hn | constructor]].
Qed.

Lemma keeps_handler (e : Event) : Keeps chunks_positive (handler e).
Proof.
  destruct e; cbn [handler].
  - unfold handleRecordingClick, startRecording, stopRecording. chunks.
  - apply keeps_ondataavailable.
  - unfold onstop. apply keeps_bind; [chunks |]. intro s.
    destruct (stopPending s); [| chunks].
    apply keeps_bind; [chunks |]. intros _.
    apply keeps_bind; [chunks |]. intros _. apply keeps_processRecordedAudio.
  - unfold onerror. chunks.
  - unfold onended. chunks.
  - unfold onplayerror. chunks.
Qed.

(** Every chunk the recorder buffers has a positive size, through any run
    of events; so an empty recording is always an empty chunk list, and
    [processRecordedAudio] rejects it as "No audio data recorded": its
    "Recorded audio is empty" branch is never taken. *)
Theorem chunks_stay_positive (evs : list Event) (s : Session) :
  chunks_positive s ->
  chunks_positive (run evs s) /\
  (blob_size (audioChunks (run evs s)) = 0 -> audioChunks (run evs s) = []).
Proof.
  intro Hs.
  assert (Hr : chunks_positive (run evs s)).
  { unfold run. revert s Hs. induction evs as [| e evs IH]; intros s Hs; [exact Hs |].
    simpl. apply IH. apply keeps_handler. exact Hs. }
  split; [exact Hr |].
  unfold chunks_positive in Hr.
  destruct (audioChunks (run evs s)) as [| n l]; [reflexivity |].
  inversion Hr as [| ? ? Hn _]. cbn [blob_size fold_right]. intro E. lia.
Qed.

Lemma chunks_stay_positive_witness :
  chunks_positive ready_session /\
  chunks_positive (run one_turn ready_session) /\
  (blob_size (audioChunks (run one_turn ready_session)) = 0 ->
   audioChunks (run one_turn ready_session) = []).
Proof.
  split; [constructor |]. apply chunks_stay_positive. constructor.
Defined.

End ChunkInvariant.

(* ------------------------------------------------------------------ *)
(** ** What the session functions leave behind *)

Section SessionEffects.
Import Session.

(** [startRecording] from any session: when the recorder starts, the
    session is [RECORDING] with a recording recorder, an empty chunk list
    and one more live stream, and no error is shown; when getting the
    device, building or starting the recorder fails, exactly one error
    "Failed to start recording: ..." is shown and the session ends
    [READY] with no recorder and no chunks.  Either way one capture
    request is made, while the state is [RECORDING]. *)
Theorem startRecording_outcomes (o : StartOutcome) (s : Session) :
  let s' := snd (startRecording o s) in
  mediaRequests s' = Capture RECORDING :: mediaRequests s /\
  audioChunks s' = [] /\
  (o = RecorderStarted ->
   currentState s' = RECORDING /\ mediaRecorder s' = Some MR_recording /\
   liveStreams s' = S (liveStreams s) /\ errorsShown s' = errorsShown s) /\
  (o <> RecorderStarted ->
   currentState s' = READY /\ mediaRecorder s' = None /\
   exists e, errorsShown s' = ("Failed to start recording: " ++ e)%string :: errorsShown s).
Proof.
  destruct s as [st bp bd ch mr sp ls pl ia mq er ms lg].
  destruct o; destruct bp; destruct mr as [[|] |]; cbv zeta;
    (split; [reflexivity |]); (split; [reflexivity |]);
    (split; intro Ho; [try discriminate Ho | try (exfalso; apply Ho; reflexivity)]);
    repeat split; eexists; reflexivity.
Qed.



(** [playAIResponse] on a text-to-speech answer carrying the base64 text
    of a non-empty PCM buffer starts playing that PCM in its WAV
    container, in state [AI_SPEAKING], without showing an error; on an
    answer with empty audio data it shows the missing-audioData error,
    starts no playback and stays in [AI_SPEAKING]. *)
Theorem playAIResponse_plays (aiText : string) (pcm : list byte) (s : Session) :
  pcm <> [] ->
  (let s' := snd (playAIResponse aiText
                    (RespOk (string_of_list_ascii (Base64.encode pcm))) s) in
   playing s' = Some (Wav.createAndPlayWAVBuffer_blob pcm) /\
   currentState s' = AI_SPEAKING /\ errorsShown s' = errorsShown s /\
   messagesSent s' = "textToSpeech" :: messagesSent s) /\
  (let s' := snd (playAIResponse aiText (RespOk "") s) in
   playing s' = playing s /\ currentState s' = AI_SPEAKING /\
   errorsShown s' = "Failed to play AI response: Invalid response from text-to-speech service, audioData missing"
                    :: errorsShown s).
Proof.
  intro Hne.
  pose proof (truthy_str_of_nonempty _ (encode_nonempty pcm Hne)) as Ht.
  pose proof (atob_encode pcm) as Ha.
  destruct s as [st bp bd ch mr sp ls pl ia mq er ms lg].
  split; cbv zeta; unfold playAIResponse.
  - rewrite Ht, Ha, map_uint8_byte_val. destruct bp; repeat split.
  - destruct bp; repeat split.
Qed.

Lemma playAIResponse_plays_witness :
  ([x00; x01] : list byte) <> [] /\
  ((let s' := snd (playAIResponse "Let's begin"
                     (RespOk (string_of_list_ascii (Base64.encode [x00; x01])))
                     ready_session) in
    playing s' = Some (Wav.createAndPlayWAVBuffer_blob [x00; x01]) /\
    currentState s' = AI_SPEAKING /\ errorsShown s' = errorsShown ready_session /\
    messagesSent s' = "textToSpeech" :: messagesSent ready_session) /\
   (let s' := snd (playAIResponse "Let's begin" (RespOk "") ready_session) in
    playing s' = playing ready_session /\ currentState s' = AI_SPEAKING /\
    errorsShown s' = "Failed to play AI response: Invalid response from text-to-speech service, audioData missing"
                     :: errorsShown ready_session)).
Proof.
  split; [discriminate |]. apply playAIResponse_plays. discriminate.
Defined.

(** [processRecordedAudio] on a non-empty recording, when a step of the
    pipeline fails: a failed transcription or a failed chat reply is shown
    once, prefixed "Failed to process recording: " (the chat failure also
    with "Failed to get AI response: "), and the later requests are not
    sent; a failed speech synthesis is shown once as "Failed to play AI
    response: ..." only.  In each case the session ends [READY] with no
    chunks. *)
Theorem processRecordedAudio_failures (s : Session) (e t1 t2 : string) :
  blob_size (audioChunks s) <> 0 ->
  (forall chat tts,
     let s' := snd (processRecordedAudio (mkEnv (RespErr e) chat tts) s) in
     currentState s' = READY /\ audioChunks s' = [] /\
     errorsShown s' = ("Failed to process recording: " ++ e)%string :: errorsShown s /\
     messagesSent s' = "speechToText" :: messagesSent s) /\
  (forall tts,
     let s' := snd (processRecordedAudio (mkEnv (RespOk t1) (RespErr e) tts) s) in
     currentState s' = READY /\ audioChunks s' = [] /\
     errorsShown s' = ("Failed to process recording: Failed to get AI response: " ++ e)%string
                      :: errorsShown s /\
     messagesSent s' = "sendChatMessage" :: "speechToText" :: messagesSent s) /\
  (let s' := snd (processRecordedAudio (mkEnv (RespOk t1) (RespOk t2) (RespErr e)) s) in
   currentState s' = READY /\ audioChunks s' = [] /\
   errorsShown s' = ("Failed to play AI response: " ++ e)%string :: errorsShown s /\
   messagesSent s' = "textToSpeech" :: "sendChatMessage" :: "speechToText" :: messagesSent s).
Proof.
  intro Hb.
  destruct s as [st bp bd ch mr sp ls pl ia mq er ms lg].
  cbn [audioChunks] in Hb.
  destruct ch as [| c cs]; [contradiction Hb; reflexivity |].
  apply Nat.eqb_neq in Hb.
  split; [intros chat tts | split; [intros tts |]]; cbv zeta;
    cbv [processRecordedAudio try_finally try_catch bind get];
    cbn [audioChunks]; rewrite Hb;
    destruct bp; destruct mr as [[|] |]; repeat split.
Qed.

Lemma processRecordedAudio_failures_witness :
  blob_size (audioChunks (mkSession PROCESSING true true [10] (Some MR_inactive)
                            false 0 None true [] [] [] [PROCESSING])) <> 0 /\
  (forall chat tts,
     let s' := snd (processRecordedAudio (mkEnv (RespErr "quota") chat tts)
                      (mkSession PROCESSING true true [10] (Some MR_inactive)
                         false 0 None true [] [] [] [PROCESSING])) in
     currentState s' = READY /\ audioChunks s' = [] /\
     errorsShown s' = ("Failed to process recording: " ++ "quota")%string :: [] /\
     messagesSent s' = "speechToText" :: []) /\
  (forall tts,
     let s' := snd (processRecordedAudio (mkEnv (RespOk "hi") (RespErr "quota") tts)
                      (mkSession PROCESSING true true [10] (Some MR_inactive)
                         false 0 None true [] [] [] [PROCESSING])) in
     currentState s' = READY /\ audioChunks s' = [] /\
     errorsShown s' = ("Failed to process recording: Failed to get AI response: " ++ "quota")%string
                      :: [] /\
     messagesSent s' = "sendChatMessage" :: "speechToText" :: []) /\
  (let s' := snd (processRecordedAudio (mkEnv (RespOk "hi") (RespOk "Hello") (RespErr "quota"))
                   (mkSession PROCESSING true true [10] (Some MR_inactive)
                      false 0 None true [] [] [] [PROCESSING])) in
   currentState s' = READY /\ audioChunks s' = [] /\
   errorsShown s' = ("Failed to play AI response: " ++ "quota")%string :: [] /\
   messagesSent s' = "textToSpeech" :: "sendChatMessage" :: "speechToText" :: []).
Proof.
  split; [discriminate |].
  apply (processRecordedAudio_failures
           (mkSession PROCESSING true true [10] (Some MR_inactive)
              false 0 None true [] [] [] [PROCESSING]) "quota" "hi" "Hello").
  discriminate.
Defined.

End SessionEffects.

(* ------------------------------------------------------------------ *)
(** ** Base64 errors *)

Section Base64Errors.
Import Wav Base64.

Lemma strip_padding_keeps (l : list ascii) (c : ascii) :
  In c l -> c <> "="%char -> In c (strip_padding l).
Proof.
  intros H Hn. unfold strip_padding.
  assert (H' : In c (rev l)) by (rewrite <- in_rev; exact H).
  destruct (rev l) as [| c1 [| c2 r]] eqn:E; [exact H | |].
  - destruct (Ascii.eqb_spec c1 "="%char) as [E1 | _]; [| exact H].
    destruct H' as [X | []]. exfalso. congruence.
  - destruct (Ascii.eqb_spec c1 "="%char) as [E1 | _]; [| exact H].
    destruct (Ascii.eqb_spec c2 "="%char) as [E2 | _].
    + rewrite <- in_rev.
      destruct H' as [X | [X | X]]; [exfalso; congruence | exfalso; congruence | exact X].
    + rewrite <- in_rev. destruct H' as [X | X]; [exfalso; congruence | exact X].
Qed.

Lemma dec_all_bad (l : list ascii) (c : ascii) :
  In c l -> dec_char c = None -> dec_all l = None.
Proof.
  induction l as [| d l IH]; intros H Hc; [destruct H |].
  simpl. destruct H as [-> | H].
  - rewrite Hc. reflexivity.
  - rewrite (IH H Hc). destruct (dec_char d); reflexivity.
Qed.

Lemma base64ToBufferArray_rejects_char (base64 : string) (c : ascii) :
  In c (list_ascii_of_string base64) -> dec_char c = None ->
  is_ascii_whitespace c = false -> c <> "="%char ->
  exists e, base64ToBufferArray base64 = Err ("Failed to decode base64 data: " ++ e)%string.
Proof.
  intros Hin Hdec Hws Hpad. unfold base64ToBufferArray.
  assert (Hb : truthy_str base64 = true).
  { apply truthy_str_nonempty. intro E. subst base64. destruct Hin. }
  rewrite Hb. cbn [negb]. unfold atob.
  set (l0 := filter (fun c => negb (is_ascii_whitespace c)) (list_ascii_of_string base64)).
  assert (H0 : In c l0) by (apply filter_In; rewrite Hws; split; [exact Hin | reflexivity]).
  set (l1 := if Nat.eqb (Nat.modulo (length l0) 4) 0 then strip_padding l0 else l0).
  assert (H1 : In c l1)
    by (unfold l1; destruct (Nat.eqb (Nat.modulo (length l0) 4) 0);
        [apply (strip_padding_keeps l0 c) |]; assumption).
  destruct (Nat.eqb (Nat.modulo (length l1) 4) 1); [eexists; reflexivity |].
  rewrite (dec_all_bad l1 c H1 Hdec). eexists. reflexivity.
Qed.

(** [base64ToBufferArray] rejects a text holding a character that is
    neither in the base64 alphabet, nor ASCII whitespace, nor [=], with
    the [atob] error behind its own prefix. *)
Theorem base64ToBufferArray_bad_char (base64 : string) (c : ascii) :
  In c (list_ascii_of_string base64) -> dec_char c = None ->
  is_ascii_whitespace c = false -> c <> "="%char ->
  exists e, base64ToBufferArray base64 = Err ("Failed to decode base64 data: " ++ e)%string.
Proof.
  apply base64ToBufferArray_rejects_char.
Qed.

Lemma base64ToBufferArray_bad_char_witness :
  In "*"%char (list_ascii_of_string "QU*D") /\ dec_char "*"%char = None /\
  is_ascii_whitespace "*"%char = false /\ "*"%char <> "="%char /\
  exists e, base64ToBufferArray "QU*D" = Err ("Failed to decode base64 data: " ++ e)%string.
Proof.
  split; [simpl; tauto |]. split; [reflexivity |]. split; [reflexivity |].
  split; [discriminate |].
  apply (base64ToBufferArray_bad_char "QU*D" "*"%char);
    [simpl; tauto | reflexivity | reflexivity | discriminate].
Defined.

(** [blobToBase64] rejects an empty Blob, whatever its type: the data
    URL is then just [data:], with no comma and nothing after one. *)
Theorem blobToBase64_empty (ty : string) :
  blobToBase64 (mkBlob [] ty) = Err "Failed to extract base64 data from blob".
Proof.
  unfold blobToBase64, readAsDataURL. cbn [blob_bytes]. reflexivity.
Qed.

End Base64Errors.

(* ------------------------------------------------------------------ *)
(** ** The base64 transport round trip *)

Section Base64Claims.
Import Wav Base64.

(** C7: for a non-empty Blob whose type has no comma (every Blob the
    extension encodes: [audio/webm;codecs=opus], [audio/webm],
    [audio/wav]), [blobToBase64] yields a string that
    [base64ToBufferArray] decodes back to the same bytes.  But
    [blobToBase64] returns the second comma-separated field of the data
    URL: for a type with a comma, such as [video/webm;codecs=vp8,opus], it
    resolves to the rest of the type followed by [;base64], not to the
    base64 data, and [base64ToBufferArray] rejects that text. *)
Theorem blob_base64_comma_breaks (bs : list byte) (ty a b : string) :
  bs <> [] ->
  (~ In ","%char (list_ascii_of_string ty) ->
   exists s, blobToBase64 (mkBlob bs ty) = Ok s /\ base64ToBufferArray s = Ok bs) /\
  (~ In ","%char (list_ascii_of_string a) -> ~ In ","%char (list_ascii_of_string b) ->
   blobToBase64 (mkBlob bs (a ++ "," ++ b)%string) = Ok (b ++ ";base64")%string /\
   exists e, base64ToBufferArray (b ++ ";base64")%string = Err e).
Proof.
  intro Hbs. split.
  - intro Hty. exists (string_of_list_ascii (encode bs)).
    split; [apply blobToBase64_encode; assumption |].
    apply base64ToBufferArray_encode. exact Hbs.
  - intros Ha Hb. split.
    + unfold blobToBase64, readAsDataURL, split_comma. cbn [blob_type blob_bytes].
      destruct bs as [| b0 r]; [contradiction |]. set (bs := b0 :: r).
      assert (Hne : String.eqb (a ++ "," ++ b)%string "" = false).
      { destruct a; reflexivity. }
      rewrite Hne.
      set (E := string_of_list_ascii (encode bs)).
      assert (Hl : list_ascii_of_string ("data:" ++ (a ++ "," ++ b) ++ ";base64," ++ E)%string
                   = (list_ascii_of_string "data:" ++ list_ascii_of_string a)
                     ++ ","%char :: ((list_ascii_of_string b ++ list_ascii_of_string ";base64")
                                     ++ ","%char :: list_ascii_of_string E)).
      { rewrite !list_ascii_of_string_app. simpl. rewrite <- !app_assoc. reflexivity. }
      rewrite Hl, split_comma_aux_app, split_comma_aux_app.
      * cbn [nth_error rev app].
        rewrite truthy_str_of_nonempty
          by (destruct (list_ascii_of_string b); discriminate).
        rewrite <- list_ascii_of_string_app, string_of_list_ascii_of_string.
        reflexivity.
      * intro H. apply in_app_or in H. destruct H as [H | H]; [exact (Hb H) |].
        simpl in H. intuition discriminate.
      * intro H. apply in_app_or in H. destruct H as [H | H]; [| exact (Ha H)].
        simpl in H. intuition discriminate.
    + destruct (base64ToBufferArray_rejects_char (b ++ ";base64")%string ";"%char) as [e He].
      * rewrite list_ascii_of_string_app. apply in_or_app. right. left. reflexivity.
      * reflexivity.
      * reflexivity.
      * discriminate.
      * exists ("Failed to decode base64 data: " ++ e)%string. exact He.
Qed.

Lemma blob_base64_comma_breaks_witness :
  ([x01; x02] : list byte) <> [] /\
  ((~ In ","%char (list_ascii_of_string "audio/webm;codecs=opus") ->
    exists s, blobToBase64 (mkBlob [x01; x02] "audio/webm;codecs=opus") = Ok s /\
              base64ToBufferArray s = Ok [x01; x02]) /\
   (~ In ","%char (list_ascii_of_string "video/webm;codecs=vp8") ->
    ~ In ","%char (list_ascii_of_string "opus") ->
    blobToBase64 (mkBlob [x01; x02] ("video/webm;codecs=vp8" ++ "," ++ "opus")%string)
    = Ok ("opus" ++ ";base64")%string /\
    exists e, base64ToBufferArray ("opus" ++ ";base64")%string = Err e)).
Proof.
  split; [discriminate |].
  apply (blob_base64_comma_breaks [x01; x02] "audio/webm;codecs=opus"
           "video/webm;codecs=vp8" "opus").
  discriminate.
Defined.

End Base64Claims.
